(** * Cookie consent engine (assets/consent.js): model and verified properties

    A shallow embedding of the non-presentational part of [consent.js]:
    the category registry, the versioned persistence with its cookie
    fallback, the activation of deferred scripts, the cookie purge and the
    public operations [init], [hasConsent] and [reset].

    Conventions of the embedding.
    - A JavaScript object that the code enumerates ([CATEGORIES], a prefs
      record, the attributes of an element) is an association list in
      property-creation order, with at most one binding per key
      ([Obj.wf]).  Category keys are identifiers, so the enumeration order
      of [Object.keys]/[Object.entries] is the creation order.
    - A JavaScript object that the code only indexes ([COOKIE_MAP], the
      items of [localStorage]) is a [gmap].
    - Values of a prefs record are booleans; an absent key reads
      [undefined], which is falsy.
    - The page, the browser stores and the module-level variables of the
      script form one [World]; every operation is a function on worlds,
      and a primitive that can throw returns an [option]. *)

From stdpp Require Import base strings list gmap.
From Stdlib Require Import ZArith Ascii.

Open Scope string_scope.
Open Scope Z_scope.
Open Scope list_scope.

(** ** JavaScript objects enumerated in creation order *)

Module Obj.

Section Ops.
Context {V : Type}.

(** [o[k]]: [None] stands for [undefined]. *)
Fixpoint get (o : list (string * V)) (k : string) : option V :=
  match o with
  | [] => None
  | (k', v) :: o' => if bool_decide (k' = k) then Some v else get o' k
  end.

(** [o[k] = v]: an existing property keeps its place, a new one goes
    last. *)
Fixpoint set (o : list (string * V)) (k : string) (v : V)
  : list (string * V) :=
  match o with
  | [] => [(k, v)]
  | (k', v') :: o' =>
      if bool_decide (k' = k) then (k', v) :: o' else (k', v') :: set o' k v
  end.

(** [Object.keys(o)] and [Object.entries(o)]. *)
Definition keys (o : list (string * V)) : list string := o.*1.
Definition entries (o : list (string * V)) : list (string * V) := o.

(** [Object.fromEntries(l)]: later entries overwrite earlier ones. *)
Definition fromEntries (l : list (string * V)) : list (string * V) :=
  foldl (fun o kv => set o kv.1 kv.2) [] l.

(** [Object.assign(target, source)]. *)
Definition assign (target source : list (string * V))
  : list (string * V) :=
  foldl (fun o kv => set o kv.1 kv.2) target (entries source).

(** At most one binding per key. *)
Definition wf (o : list (string * V)) : Prop := NoDup (keys o).
End Ops.

End Obj.

(** Truthiness of a property read: [undefined] and [false] are falsy. *)
Definition truthy (v : option bool) : bool :=
  match v with
  | Some b => b
  | None => false
  end.

(** ** Data model *)

(** A consent record: category key to boolean. *)
Abbreviation Prefs := (list (string * bool)).

(** A category definition, the value type of [CATEGORIES]. *)
Record CategoryDefinition := {
  label : string;
  description : string;
  required : bool;
  default : bool;
}.

(** The object that [save] serialises. *)
Record Payload := {
  version : string;
  prefs : Prefs;
  ts : Z;
}.

(** Text kept in a store.  [JSON.stringify] and [JSON.parse] are the
    host's: a text is represented by what [JSON.parse] makes of it, either
    the payload it denotes or a text that yields no payload (parsing
    throws, or the value has no [version]). *)
Inductive Text :=
  | Plain (s : string)
  | Json (d : Payload).

Definition JSON_stringify (d : Payload) : Text := Json d.

(** [None]: the parse (or the read of [d.version]) does not give a
    payload. *)
Definition JSON_parse (t : Text) : option Payload :=
  match t with
  | Json d => Some d
  | Plain _ => None
  end.

(** A string is truthy unless it is empty. *)
Definition text_truthy (t : Text) : bool :=
  match t with
  | Plain "" => false
  | _ => true
  end.

(** [encodeURIComponent] and [decodeURIComponent] are inverse to each
    other; the jar records the decoded text of a value. *)
Definition encodeURIComponent (t : Text) : Text := t.
Definition decodeURIComponent (t : Text) : option Text := Some t.

(** An assignment to [document.cookie], attribute by attribute. *)
Record CookieWrite := {
  cw_name : string;
  cw_value : Text;
  cw_expires : Z;                (* epoch milliseconds *)
  cw_path : string;
  cw_domain : option string;     (* the [domain=] attribute, if given *)
  cw_samesite : option string;
}.

(** A cookie of the jar.  Its identity is name, domain and path. *)
Record Cookie := {
  c_name : string;
  c_value : Text;
  c_domain : option string;      (* [None]: host-only *)
  c_path : string;
}.

(** A script element: its attributes in order, and its text content. *)
Record Element := {
  attrs : list (string * string);
  textContent : string;
}.

(** What became of the consent banner. *)
Inductive Banner :=
  | NoBanner
  | BannerShown
  | BannerDeferred.              (* waits for [DOMContentLoaded] *)

(** The world the script runs in. *)
Record World := {
  (* browser stores, which outlive the page *)
  ls_available : bool;           (* touching [localStorage] does not throw *)
  ls_quota_full : bool;          (* [setItem] throws *)
  ls_items : gmap string Text;
  jar : list Cookie;             (* the cookies [document.cookie] lists *)
  clock : Z;                     (* [Date.now()] *)
  hostname : string;             (* [location.hostname] *)
  (* the page *)
  dom : list Element;            (* the script elements, in document order *)
  loading : bool;                (* [document.readyState === 'loading'] *)
  (* module-level variables of the script *)
  CATEGORIES : list (string * CategoryDefinition);
  COOKIE_MAP : gmap string (list string);
  consent : option Prefs;
  (* what the page and the embedder observe *)
  activated : list Element;      (* live scripts inserted, in order *)
  cookie_log : list CookieWrite; (* assignments to [document.cookie] *)
  events : list Prefs;           (* details of the [cc:consent] events *)
  banner : Banner;
  reloads : nat;                 (* calls of [location.reload()] *)
}.

(** Field updates. *)
Definition with_ls_items (f : gmap string Text) (w : World) : World :=
  {| ls_available := ls_available w; ls_quota_full := ls_quota_full w;
     ls_items := f; jar := jar w; clock := clock w; hostname := hostname w;
     dom := dom w; loading := loading w; CATEGORIES := CATEGORIES w;
     COOKIE_MAP := COOKIE_MAP w; consent := consent w;
     activated := activated w; cookie_log := cookie_log w;
     events := events w; banner := banner w; reloads := reloads w |}.

Definition with_cookies (j : list Cookie) (l : list CookieWrite) (w : World)
  : World :=
  {| ls_available := ls_available w; ls_quota_full := ls_quota_full w;
     ls_items := ls_items w; jar := j; clock := clock w;
     hostname := hostname w;
     dom := dom w; loading := loading w; CATEGORIES := CATEGORIES w;
     COOKIE_MAP := COOKIE_MAP w; consent := consent w;
     activated := activated w; cookie_log := l;
     events := events w; banner := banner w; reloads := reloads w |}.

Definition with_page (d a : list Element) (w : World) : World :=
  {| ls_available := ls_available w; ls_quota_full := ls_quota_full w;
     ls_items := ls_items w; jar := jar w; clock := clock w;
     hostname := hostname w;
     dom := d; loading := loading w; CATEGORIES := CATEGORIES w;
     COOKIE_MAP := COOKIE_MAP w; consent := consent w;
     activated := a; cookie_log := cookie_log w;
     events := events w; banner := banner w; reloads := reloads w |}.

Definition with_config (c : list (string * CategoryDefinition))
  (m : gmap string (list string)) (w : World) : World :=
  {| ls_available := ls_available w; ls_quota_full := ls_quota_full w;
     ls_items := ls_items w; jar := jar w; clock := clock w;
     hostname := hostname w;
     dom := dom w; loading := loading w; CATEGORIES := c;
     COOKIE_MAP := m; consent := consent w;
     activated := activated w; cookie_log := cookie_log w;
     events := events w; banner := banner w; reloads := reloads w |}.

Definition with_consent (c : option Prefs) (w : World) : World :=
  {| ls_available := ls_available w; ls_quota_full := ls_quota_full w;
     ls_items := ls_items w; jar := jar w; clock := clock w;
     hostname := hostname w;
     dom := dom w; loading := loading w; CATEGORIES := CATEGORIES w;
     COOKIE_MAP := COOKIE_MAP w; consent := c;
     activated := activated w; cookie_log := cookie_log w;
     events := events w; banner := banner w; reloads := reloads w |}.

Definition with_events (e : list Prefs) (w : World) : World :=
  {| ls_available := ls_available w; ls_quota_full := ls_quota_full w;
     ls_items := ls_items w; jar := jar w; clock := clock w;
     hostname := hostname w;
     dom := dom w; loading := loading w; CATEGORIES := CATEGORIES w;
     COOKIE_MAP := COOKIE_MAP w; consent := consent w;
     activated := activated w; cookie_log := cookie_log w;
     events := e; banner := banner w; reloads := reloads w |}.

Definition with_banner (b : Banner) (w : World) : World :=
  {| ls_available := ls_available w; ls_quota_full := ls_quota_full w;
     ls_items := ls_items w; jar := jar w; clock := clock w;
     hostname := hostname w;
     dom := dom w; loading := loading w; CATEGORIES := CATEGORIES w;
     COOKIE_MAP := COOKIE_MAP w; consent := consent w;
     activated := activated w; cookie_log := cookie_log w;
     events := events w; banner := b; reloads := reloads w |}.

Definition with_reloads (n : nat) (w : World) : World :=
  {| ls_available := ls_available w; ls_quota_full := ls_quota_full w;
     ls_items := ls_items w; jar := jar w; clock := clock w;
     hostname := hostname w;
     dom := dom w; loading := loading w; CATEGORIES := CATEGORIES w;
     COOKIE_MAP := COOKIE_MAP w; consent := consent w;
     activated := activated w; cookie_log := cookie_log w;
     events := events w; banner := banner w; reloads := n |}.

(** ** Host primitives *)

(** [localStorage.getItem(k)]: [None] when the access throws, [Some None]
    for JavaScript's [null]. *)
Definition localStorage_getItem (k : string) (w : World)
  : option (option Text) :=
  if ls_available w then Some (ls_items w !! k) else None.

(** [localStorage.setItem(k, v)]: [None] when it throws. *)
Definition localStorage_setItem (k : string) (v : Text) (w : World)
  : option World :=
  if ls_available w && negb (ls_quota_full w)
  then Some (with_ls_items (<[k := v]> (ls_items w)) w)
  else None.

(** [localStorage.removeItem(k)]: [None] when it throws. *)
Definition localStorage_removeItem (k : string) (w : World) : option World :=
  if ls_available w
  then Some (with_ls_items (delete k (ls_items w)) w)
  else None.

(** A [domain=] attribute loses its leading dot. *)
Definition strip_dot (d : string) : string :=
  match d with
  | String "."%char rest => rest
  | _ => d
  end.

Definition cookie_of (cw : CookieWrite) : Cookie :=
  {| c_name := cw_name cw; c_value := cw_value cw;
     c_domain := strip_dot <$> cw_domain cw; c_path := cw_path cw |}.

(** Two cookies are the same cookie when name, domain and path agree. *)
Definition same_cookie (a b : Cookie) : bool :=
  bool_decide (c_name a = c_name b)
  && bool_decide (c_domain a = c_domain b)
  && bool_decide (c_path a = c_path b).

(** Storing a cookie: the one it replaces keeps its place, a new one goes
    last. *)
Fixpoint jar_store (c : Cookie) (j : list Cookie) : list Cookie :=
  match j with
  | [] => [c]
  | c' :: j' => if same_cookie c' c then c :: j' else c' :: jar_store c j'
  end.

Definition jar_evict (c : Cookie) (j : list Cookie) : list Cookie :=
  filter (fun c' => same_cookie c' c = false) j.

(** [document.cookie = ...]: the write is logged; an expiry in the past
    evicts the cookie, any other stores it. *)
Definition document_cookie_set (cw : CookieWrite) (w : World) : World :=
  let c := cookie_of cw in
  let j := if cw_expires cw <? clock w
           then jar_evict c (jar w) else jar_store c (jar w) in
  with_cookies j (cookie_log w ++ [cw]) w.

(** [document.cookie.match(...)] with the regular expression that finds
    [name=value] at the start of the string or after a separator: the
    value of the first cookie of that name, [None] for no match. *)
Fixpoint document_cookie_match (name : string) (j : list Cookie)
  : option Text :=
  match j with
  | [] => None
  | c :: j' =>
      if bool_decide (c_name c = name) then Some (c_value c)
      else document_cookie_match name j'
  end.

(** ** The script *)

Definition STORAGE_KEY : string := "cookie_consent".

(** The category definitions the script starts with. *)
Definition CATEGORIES_builtin : list (string * CategoryDefinition) :=
  [ ("necessary",
     {| label := "Necessary";
        description :=
          "Required for the website to function. Cannot be disabled.";
        required := true; default := true |});
    ("analytics",
     {| label := "Analytics";
        description :=
          "Help us understand how visitors interact with the site (e.g. Google Analytics).";
        required := false; default := false |});
    ("marketing",
     {| label := "Marketing";
        description :=
          "Used to deliver relevant ads and track campaign effectiveness.";
        required := false; default := false |});
    ("preferences",
     {| label := "Preferences";
        description :=
          "Remember settings like language and theme across visits.";
        required := false; default := false |}) ].

(** Known cookie names per category, for the cleanup on revocation. *)
Definition COOKIE_MAP_builtin : gmap string (list string) :=
  list_to_map
    [ ("analytics", ["_ga"; "_gid"; "_gat"; "_gat_gtag"; "__hstc";
                     "hubspotutk"; "_hjid"; "_hjSessionUser"]);
      ("marketing", ["_fbp"; "_fbc"; "fr"; "tr"; "__gads"]);
      ("preferences", ["lang"; "theme"; "currency"]) ].

(** The argument of [init]. *)
Record Options := {
  opt_categories : option (list (string * CategoryDefinition));
  opt_cookieMap : option (gmap string (list string));
}.

(** *** Elements *)

Definition getAttribute (el : Element) (name : string) : option string :=
  Obj.get (attrs el) name.

Definition setAttribute (name value : string) (el : Element) : Element :=
  {| attrs := Obj.set (attrs el) name value;
     textContent := textContent el |}.

(** The selector
    [script[type="text/plain"][data-cookie-category="${category}"]]. *)
Definition matches_selector (category : string) (el : Element) : bool :=
  bool_decide (getAttribute el "type" = Some "text/plain")
  && bool_decide (getAttribute el "data-cookie-category" = Some category).

(** [document.querySelectorAll]: a static list of the matching elements,
    each with its position in the document. *)
Definition querySelectorAll (category : string) (d : list Element)
  : list (nat * Element) :=
  filter (fun p => matches_selector category p.2 = true) (imap pair d).

(** One step of the loop over [el.attributes]. *)
Definition copy_attribute (s : Element) (a : string * string) : Element :=
  if bool_decide (a.1 = "type") then s
  else if bool_decide (a.1 = "data-src") then setAttribute "src" a.2 s
  else setAttribute a.1 a.2 s.

(** [!el.getAttribute('data-src')]: no attribute, or an empty one. *)
Definition no_data_src (el : Element) : bool :=
  match getAttribute el "data-src" with
  | None | Some "" => true
  | Some _ => false
  end.

(** The script element that the loop body of [activateScripts] builds
    for [el]. *)
Definition live_script (el : Element) : Element :=
  let s := {| attrs := []; textContent := "" |} in
  let s := foldl copy_attribute s (attrs el) in
  let s := setAttribute "type" "text/javascript" s in
  if no_data_src el
  then {| attrs := attrs s; textContent := textContent el |}
  else s.

(** [el.parentNode.replaceChild(s, el)] for the element at position [i];
    the browser runs the inserted script. *)
Definition replaceChild (i : nat) (s : Element) (w : World) : World :=
  with_page (<[i := s]> (dom w)) (activated w ++ [s]) w.

Definition activateScripts (category : string) (w : World) : World :=
  foldl (fun w p => replaceChild p.1 (live_script p.2) w) w
        (querySelectorAll category (dom w)).

(** *** Cookie cleanup *)

(** The three tails [path=/], [path=/;domain=HOST] and
    [path=/;domain=.HOST], as path and [domain=] attribute. *)
Definition tails (host : string) : list (string * option string) :=
  [ ("/", None); ("/", Some host); ("/", Some ("." +:+ host)) ].

(** [`${name}=;expires=Thu,01 Jan 1970 00:00:00 GMT;${tail}`] *)
Definition expired_cookie (name : string) (tail : string * option string)
  : CookieWrite :=
  {| cw_name := name; cw_value := Plain ""; cw_expires := 0;
     cw_path := tail.1; cw_domain := tail.2; cw_samesite := None |}.

Definition deleteCookies (category : string) (w : World) : World :=
  foldl (fun w name =>
           foldl (fun w tail => document_cookie_set (expired_cookie name tail) w)
                 w (tails (hostname w)))
        w (match COOKIE_MAP w !! category with
           | Some names => names
           | None => []
           end).

(** *** Persistence, consent, public operations *)

Section Engine.

(** The compiled-in version tag ([const CONSENT_VERSION = '2'] in the
    source): bumping the string is how the site forces re-consent, so the
    script is modelled for any value of it. *)
Variable CONSENT_VERSION : string.

Definition save (p : Prefs) (w : World) : World :=
  let payload :=
    JSON_stringify {| version := CONSENT_VERSION; prefs := p; ts := clock w |} in
  match localStorage_setItem STORAGE_KEY payload w with
  | Some w' => w'
  | None =>
      let exp := clock w + 365 * 86400000 in
      document_cookie_set
        {| cw_name := STORAGE_KEY; cw_value := encodeURIComponent payload;
           cw_expires := exp; cw_path := "/"; cw_domain := None;
           cw_samesite := Some "Lax" |} w
  end.

(** The first [try] block of [load]: [Some p] when it returns [p]. *)
Definition load_primary (w : World) : option Prefs :=
  match localStorage_getItem STORAGE_KEY w with
  | Some (Some raw) =>
      if text_truthy raw then
        match JSON_parse raw with
        | Some d =>
            if bool_decide (version d = CONSENT_VERSION)
            then Some (prefs d) else None
        | None => None
        end
      else None
  | Some None => None
  | None => None
  end.

(** The rest of [load], from the cookie match on. *)
Definition load_fallback (w : World) : option Prefs :=
  match document_cookie_match STORAGE_KEY (jar w) with
  | Some m1 =>
      match decodeURIComponent m1 ≫= JSON_parse with
      | Some d =>
          if bool_decide (version d = CONSENT_VERSION)
          then Some (prefs d) else None
      | None => None
      end
  | None => None
  end.

(** [None] is the [null] that [load] returns. *)
Definition load (w : World) : option Prefs :=
  match load_primary w with
  | Some p => Some p
  | None => load_fallback w
  end.

(** The loop of [applyConsent] over [Object.keys(CATEGORIES)]. *)
Definition revoke (old p : Prefs) (w : World) : World :=
  foldl (fun w cat =>
           if truthy (Obj.get old cat) && negb (truthy (Obj.get p cat))
           then deleteCookies cat w else w)
        w (Obj.keys (CATEGORIES w)).

(** The loop over [Object.entries(prefs)], in [applyConsent] and [init]. *)
Definition activateAllowed (p : Prefs) (w : World) : World :=
  foldl (fun w e => if e.2 : bool then activateScripts e.1 w else w)
        w (Obj.entries p).

Definition applyConsent (p : Prefs) (w : World) : World :=
  let w := match consent w with
           | Some old => revoke old p w
           | None => w
           end in
  let w := with_consent (Some p) w in
  let w := activateAllowed p w in
  let w := save p w in
  with_events (events w ++ [p]) w.

Definition defaultPrefs (w : World) : Prefs :=
  Obj.fromEntries
    (map (fun kv => (kv.1, if required kv.2 then true else default kv.2))
         (Obj.entries (CATEGORIES w))).

Definition acceptAll (w : World) : World :=
  applyConsent
    (Obj.fromEntries (map (fun k => (k, true)) (Obj.keys (CATEGORIES w)))) w.

Definition rejectAll (w : World) : World :=
  applyConsent (defaultPrefs w) w.

(** The banner itself is the UI's; the engine only asks for it, at once
    or when the document is ready. *)
Definition init (options : Options) (w : World) : World :=
  let w := match opt_categories options with
           | Some c => with_config (Obj.assign (CATEGORIES w) c) (COOKIE_MAP w) w
           | None => w
           end in
  let w := match opt_cookieMap options with
           | Some m => with_config (CATEGORIES w) (m ∪ COOKIE_MAP w) w
           | None => w
           end in
  match load w with
  | Some stored =>
      let w := with_consent (Some stored) w in
      activateAllowed stored w
  | None =>
      let w := activateScripts "necessary" w in
      with_banner (if loading w then BannerDeferred else BannerShown) w
  end.

(** [!!(consent && consent[category])].  A key that the record does not
    hold reads [undefined]; the members that every object inherits
    ([constructor], [toString], ...) are not modelled, so the properties
    below speak of [hasConsent] with no record, for keys the record
    holds, and for category keys. *)
Definition hasConsent (category : string) (w : World) : bool :=
  match consent w with
  | Some c => truthy (Obj.get c category)
  | None => false
  end.

Definition reset (w : World) : World :=
  let w := match localStorage_removeItem STORAGE_KEY w with
           | Some w' => w'
           | None => w
           end in
  let w := document_cookie_set
             {| cw_name := STORAGE_KEY; cw_value := Plain "";
                cw_expires := 0; cw_path := "/"; cw_domain := None;
                cw_samesite := None |} w in
  with_reloads (S (reloads w)) w.

(** A page load: the browser stores are what they were, the document is
    [html], the module-level variables get their initial values, and the
    last line of the script calls [init()] with no options. *)
Definition page_load (html : list Element) (still_loading : bool)
  (w : World) : World :=
  init {| opt_categories := None; opt_cookieMap := None |}
    {| ls_available := ls_available w; ls_quota_full := ls_quota_full w;
       ls_items := ls_items w; jar := jar w; clock := clock w;
       hostname := hostname w;
       dom := html; loading := still_loading;
       CATEGORIES := CATEGORIES_builtin; COOKIE_MAP := COOKIE_MAP_builtin;
       consent := None;
       activated := []; cookie_log := cookie_log w;
       events := []; banner := NoBanner; reloads := 0 |}.

End Engine.

(** ** Notions used in the statements *)

(** What [activateScripts category] makes of one element. *)
Definition activate_if (category : string) (el : Element) : Element :=
  if matches_selector category el then live_script el else el.

(** The declarations of a category that are still inert. *)
Definition pending (category : string) (w : World) : list Element :=
  filter (fun el => matches_selector category el = true) (dom w).

(** The jar after one assignment to [document.cookie]. *)
Definition jar_after (now : Z) (j : list Cookie) (cw : CookieWrite)
  : list Cookie :=
  if cw_expires cw <? now
  then jar_evict (cookie_of cw) j else jar_store (cookie_of cw) j.

(** A run of assignments to [document.cookie]. *)
Definition cookie_writes (l : list CookieWrite) (w : World) : World :=
  foldl (fun w cw => document_cookie_set cw w) w l.

(** The names [COOKIE_MAP[category] || []]. *)
Definition cookie_names (w : World) (category : string) : list string :=
  match COOKIE_MAP w !! category with
  | Some names => names
  | None => []
  end.

(** The deletion attempts of [deleteCookies category], in order. *)
Definition purge_writes (w : World) (category : string) : list CookieWrite :=
  cookie_names w category
    ≫= (fun name => expired_cookie name <$> tails (hostname w)).

(** The categories that the loop of [applyConsent] purges, in order. *)
Definition revoked (old p : Prefs) (w : World) : list string :=
  filter (fun cat =>
            truthy (Obj.get old cat) && negb (truthy (Obj.get p cat)) = true)
         (Obj.keys (CATEGORIES w)).

(** The world just before [applyConsent] installs the new record. *)
Definition purged (p : Prefs) (w : World) : World :=
  match consent w with
  | Some old => revoke old p w
  | None => w
  end.

(** The only cookies named [name] are host-only ones at path [/], the
    scope [save] writes with. *)
Definition jar_own (name : string) (j : list Cookie) : Prop :=
  ∀ c, c ∈ j → c_name c = name → c_domain c = None ∧ c_path c = "/".

(** The payload that [save] writes. *)
Definition saved_payload (v : string) (p : Prefs) (w : World) : Payload :=
  {| version := v; prefs := p; ts := clock w |}.

(** The cookie that [save] falls back to, as a jar entry, and the
    assignment with which [reset] expires it. *)
Definition consent_cookie : Cookie :=
  {| c_name := STORAGE_KEY; c_value := Plain "";
     c_domain := None; c_path := "/" |}.

Definition consent_cookie_expiry : CookieWrite :=
  {| cw_name := STORAGE_KEY; cw_value := Plain ""; cw_expires := 0;
     cw_path := "/"; cw_domain := None; cw_samesite := None |}.

(** ** Example sessions *)

Definition script_necessary : Element :=
  {| attrs := [("type", "text/plain"); ("data-cookie-category", "necessary")];
     textContent := "boot()" |}.

Definition script_analytics : Element :=
  {| attrs := [("type", "text/plain");
               ("data-cookie-category", "analytics");
               ("data-src", "https://www.googletagmanager.com/gtag/js")];
     textContent := "" |}.

Definition script_social : Element :=
  {| attrs := [("type", "text/plain"); ("data-cookie-category", "social")];
     textContent := "share()" |}.

(** A page with three deferred scripts, before the script has run, over
    the given browser stores. *)
Definition example_page (available full : bool) (items : gmap string Text)
  (j : list Cookie) : World :=
  {| ls_available := available; ls_quota_full := full; ls_items := items;
     jar := j; clock := 1700000000000; hostname := "example.org";
     dom := [script_necessary; script_analytics; script_social];
     loading := false;
     CATEGORIES := CATEGORIES_builtin; COOKIE_MAP := COOKIE_MAP_builtin;
     consent := None; activated := []; cookie_log := []; events := [];
     banner := NoBanner; reloads := 0 |}.

Definition stored (v : string) (p : Prefs) : Text :=
  Json {| version := v; prefs := p; ts := 1690000000000 |}.

(** A first visit: working stores, nothing stored. *)
Definition first_visit : World := example_page true false ∅ [].

(** A visitor who has accepted everything. *)
Definition decided : World := acceptAll "2" first_visit.

(** A visitor without [localStorage]. *)
Definition no_storage : World := example_page false false ∅ [].

(** A returning visitor whose stored record has a key [social] that the
    registry of this page does not have, on a page that configures the
    cookie names of [social]. *)
Definition social_session : World :=
  init "2"
    {| opt_categories := None;
       opt_cookieMap := Some {[ "social" := ["sid"] ]} |}
    (example_page true false
       {[ STORAGE_KEY :=
            stored "2" [("necessary", true); ("social", true)] ]} []).

(** A full primary store that still holds an earlier decision. *)
Definition full_store : World :=
  example_page true true
    {[ STORAGE_KEY :=
         stored "2" [("necessary", true); ("analytics", true)] ]} [].

(** A primary store and a fallback cookie that hold payloads of two
    versions. *)
Definition two_versions : World :=
  example_page true false
    {[ STORAGE_KEY :=
         stored "1" [("necessary", true); ("analytics", true)] ]}
    [ {| c_name := STORAGE_KEY;
         c_value := stored "2" [("necessary", true); ("marketing", true)];
         c_domain := None; c_path := "/" |} ].

(** ** The preferences modal *)

(** A checkbox [<input type="checkbox" data-cat=...>] of the modal. *)
Record Checkbox := {
  data_cat : string;
  checked : bool;
  disabled : bool;
}.

(** The checkboxes that [openModal] renders, one per entry of
    [CATEGORIES]: checked when the category is required or allowed in
    [consent || defaultPrefs()], disabled when it is required. *)
Definition openModal_inputs (w : World) : list Checkbox :=
  let current := match consent w with
                 | Some c => c
                 | None => defaultPrefs w
                 end in
  map (fun kv => {| data_cat := kv.1;
                    checked := required kv.2 || truthy (Obj.get current kv.1);
                    disabled := required kv.2 |})
      (Obj.entries (CATEGORIES w)).

(** The record that the click handler of [#cc-save] builds from the
    checkboxes of the modal. *)
Definition cc_save_prefs (inputs : list Checkbox) (w : World) : Prefs :=
  foldl (fun prefs inp => Obj.set prefs (data_cat inp) (checked inp))
        (defaultPrefs w) inputs.

(** The click handler of [#cc-save], up to the closing of the modal. *)
Definition cc_save_onclick (CONSENT_VERSION : string)
  (inputs : list Checkbox) (w : World) : World :=
  applyConsent CONSENT_VERSION (cc_save_prefs inputs w) w.

(** What a visitor can make of the rendered checkboxes: the same
    checkboxes, those that are disabled in the state they were rendered
    in. *)
Definition user_edit (rendered inputs : list Checkbox) : Prop :=
  Forall2 (fun a b => data_cat b = data_cat a
                      ∧ disabled b = disabled a
                      ∧ (disabled a = true → checked b = checked a))
          rendered inputs.

(** The world in which [applyConsent] calls [save]: cookies purged, the
    record installed, the allowed scripts activated. *)
Definition applied (p : Prefs) (w : World) : World :=
  activateAllowed p (with_consent (Some p) (purged p w)).

(** The world a page load starts the script in. *)
Definition fresh_page (html : list Element) (still_loading : bool)
  (w : World) : World :=
  {| ls_available := ls_available w; ls_quota_full := ls_quota_full w;
     ls_items := ls_items w; jar := jar w; clock := clock w;
     hostname := hostname w;
     dom := html; loading := still_loading;
     CATEGORIES := CATEGORIES_builtin; COOKIE_MAP := COOKIE_MAP_builtin;
     consent := None;
     activated := []; cookie_log := cookie_log w;
     events := []; banner := NoBanner; reloads := 0 |}.

(** The world after the two [Object.assign] lines of [init]. *)
Definition configure (options : Options) (w : World) : World :=
  let w := match opt_categories options with
           | Some c =>
               with_config (Obj.assign (CATEGORIES w) c) (COOKIE_MAP w) w
           | None => w
           end in
  match opt_cookieMap options with
  | Some m => with_config (CATEGORIES w) (m ∪ COOKIE_MAP w) w
  | None => w
  end.

(** ** More example sessions *)

(** A visitor who has accepted everything and carries cookies of the
    marketing category in three scopes, and one of another category. *)
Definition tracked : World :=
  with_cookies
    [ {| c_name := "_fbp"; c_value := Plain "fb.1"; c_domain := None;
         c_path := "/" |};
      {| c_name := "_fbp"; c_value := Plain "fb.2";
         c_domain := Some "example.org"; c_path := "/" |};
      {| c_name := "_fbp"; c_value := Plain "fb.3"; c_domain := None;
         c_path := "/shop" |};
      {| c_name := "session"; c_value := Plain "s1"; c_domain := None;
         c_path := "/" |} ]
    [] decided.

(** The modal of a decided visitor after the visitor has unchecked
    [marketing]. *)
Definition modal_unchecked_marketing : list Checkbox :=
  map (fun inp => if bool_decide (data_cat inp = "marketing")
                  then {| data_cat := data_cat inp; checked := false;
                          disabled := disabled inp |}
                  else inp)
      (openModal_inputs decided).


(** A returning visitor who allowed analytics. *)
Definition returning_visit : World :=
  example_page true false
    {[ STORAGE_KEY :=
         stored "2" [("necessary", true); ("analytics", true);
                     ("marketing", false)] ]} [].

(** No options for [init]. *)
Definition no_options : Options :=
  {| opt_categories := None; opt_cookieMap := None |}.

(** Options that redefine [analytics] and add [social]. *)
Definition social_options : Options :=
  {| opt_categories :=
       Some [ ("social",
               {| label := "Social"; description := "Share buttons.";
                  required := false; default := false |});
              ("analytics",
               {| label := "Statistics"; description := "Visit counts.";
                  required := false; default := true |}) ];
     opt_cookieMap := Some {[ "social" := ["sid"] ]} |}.


(** * Properties *)

(** ** Objects *)

Module ObjFacts.
Section Facts.
Context {V : Type}.
Implicit Types (o : list (string * V)) (k : string) (v : V).

Lemma get_set_eq o k v : Obj.get (Obj.set o k v) k = Some v.
Proof.
  induction o as [|[k' v'] o IH]; simpl.
  - by rewrite bool_decide_true.
  - case_bool_decide; simpl.
    + by rewrite bool_decide_true.
    + by rewrite bool_decide_false.
Qed.

Lemma get_set_ne o k k' v : k ≠ k' → Obj.get (Obj.set o k v) k' = Obj.get o k'.
Proof.
  intros Hne. induction o as [|[k0 v0] o IH]; simpl.
  - by rewrite bool_decide_false.
  - case_bool_decide; simpl; subst.
    + by rewrite !bool_decide_false.
    + by rewrite IH.
Qed.

Lemma get_None o k : k ∉ Obj.keys o → Obj.get o k = None.
Proof.
  induction o as [|[k' v'] o IH]; simpl; [done|].
  rewrite not_elem_of_cons. intros [Hne Hnin].
  rewrite bool_decide_false by done. by apply IH.
Qed.

Lemma get_Some_elem o k v : Obj.get o k = Some v → (k, v) ∈ o.
Proof.
  induction o as [|[k' v'] o IH]; simpl; [done|].
  case_bool_decide; subst.
  - intros [= ->]. apply list_elem_of_here.
  - intros H'. apply list_elem_of_further. by apply IH.
Qed.

Lemma set_fresh o k v : k ∉ Obj.keys o → Obj.set o k v = o ++ [(k, v)].
Proof.
  induction o as [|[k' v'] o IH]; simpl; [done|].
  rewrite not_elem_of_cons. intros [Hne Hnin].
  rewrite bool_decide_false by done. by rewrite IH.
Qed.

Lemma fromEntries_wf o : Obj.wf o → Obj.fromEntries o = o.
Proof.
  unfold Obj.fromEntries, Obj.wf, Obj.keys.
  enough (∀ acc, NoDup ((acc ++ o).*1) →
            foldl (λ o kv, Obj.set o kv.1 kv.2) acc o = acc ++ o) as H.
  { intros Hwf. by apply (H []). }
  induction o as [|[k v] o IH]; intros acc Hnd; simpl.
  - by rewrite app_nil_r.
  - rewrite set_fresh.
    + rewrite IH; rewrite <- app_assoc; simpl; done.
    + rewrite fmap_app in Hnd. apply NoDup_app in Hnd as (_ & Hd & _).
      intros Hin. apply (Hd _ Hin). simpl. apply list_elem_of_here.
Qed.
End Facts.

Lemma get_fmap {V W : Type} (f : V → W) (o : list (string * V)) k :
  Obj.get (map (λ kv, (kv.1, f kv.2)) o) k = f <$> Obj.get o k.
Proof.
  induction o as [|[k' v'] o IH]; simpl; [done|].
  by case_bool_decide.
Qed.

Lemma keys_fmap {V W : Type} (f : V → W) (o : list (string * V)) :
  Obj.keys (map (λ kv, (kv.1, f kv.2)) o) = Obj.keys o.
Proof.
  unfold Obj.keys. induction o as [|[k' v'] o IH]; simpl; [done|]. by f_equal.
Qed.
End ObjFacts.

(** ** Activation of deferred scripts *)

Lemma live_script_type el :
  getAttribute (live_script el) "type" = Some "text/javascript".
Proof.
  unfold live_script, getAttribute.
  destruct (no_data_src el); simpl; apply ObjFacts.get_set_eq.
Qed.

Lemma live_script_not_inert category el :
  matches_selector category (live_script el) = false.
Proof.
  unfold matches_selector. rewrite live_script_type.
  by rewrite bool_decide_false.
Qed.

Lemma matches_selector_category category el :
  matches_selector category el = true →
  getAttribute el "data-cookie-category" = Some category.
Proof.
  unfold matches_selector. intros H.
  apply andb_prop in H as [_ H]. by apply bool_decide_eq_true in H.
Qed.

Lemma matches_selector_inj c c' el :
  matches_selector c el = true → matches_selector c' el = true → c = c'.
Proof.
  intros H H'. apply matches_selector_category in H, H'. congruence.
Qed.

Lemma querySelectorAll_elements category d :
  (querySelectorAll category d).*2
  = filter (fun el => matches_selector category el = true) d.
Proof.
  unfold querySelectorAll.
  enough (∀ f : nat → Element → nat * Element,
            (∀ i x, (f i x).2 = x) →
            (filter (fun p => matches_selector category p.2 = true)
                    (imap f d)).*2
            = filter (fun el => matches_selector category el = true) d) as H.
  { by apply H. }
  induction d as [|el d IH]; intros f Hf; [done|].
  rewrite imap_cons, !filter_cons. rewrite Hf.
  destruct (decide (matches_selector category el = true)); simpl.
  - rewrite Hf. f_equal. apply IH. intros i x. apply Hf.
  - apply IH. intros i x. apply Hf.
Qed.

Lemma activated_foldl_replaceChild ps w :
  activated (foldl (fun w p => replaceChild p.1 (live_script p.2) w) w ps)
  = activated w ++ map live_script ps.*2.
Proof.
  revert w. induction ps as [|p ps IH]; intros w; simpl.
  - by rewrite app_nil_r.
  - rewrite IH. simpl. by rewrite <- app_assoc.
Qed.

Lemma dom_foldl_replaceChild ps w :
  dom (foldl (fun w p => replaceChild p.1 (live_script p.2) w) w ps)
  = foldl (fun d p => <[p.1 := live_script p.2]> d) (dom w) ps.
Proof.
  revert w. induction ps as [|p ps IH]; intros w; simpl; [done|].
  by rewrite IH.
Qed.

Lemma foldl_insert_matching category (d1 d2 : list Element) :
  foldl (fun d p => <[p.1 := live_script p.2]> d) (d1 ++ d2)
        (filter (fun p => matches_selector category p.2 = true)
                (imap (fun i => pair (length d1 + i)%nat) d2))
  = d1 ++ map (activate_if category) d2.
Proof.
  revert d1. induction d2 as [|el d2 IH]; intros d1; [done|].
  rewrite imap_cons, filter_cons. simpl. unfold activate_if at 1.
  assert (Hext : imap ((fun i => pair (length d1 + i)%nat) ∘ S) d2
                 = imap (fun i => pair (length (d1 ++ [el]) + i)%nat) d2
                 :> list (nat * Element)).
  { apply imap_ext. intros i x _. simpl. rewrite length_app. simpl.
    f_equal. lia. }
  destruct (decide (matches_selector category el = true)) as [Hm|Hm].
  - rewrite Hm. simpl. rewrite Nat.add_0_r.
    rewrite (insert_app_r_alt d1 (el :: d2)) by lia.
    rewrite Nat.sub_diag. simpl.
    assert (Hext' : imap ((fun i => pair (length d1 + i)%nat) ∘ S) d2
                 = imap (fun i => pair (length (d1 ++ [live_script el]) + i)%nat) d2
                 :> list (nat * Element)).
    { apply imap_ext. intros i x _. simpl. rewrite length_app. simpl.
      f_equal. lia. }
    rewrite Hext'.
    rewrite (cons_middle (live_script el) d1 d2), app_assoc.
    rewrite IH. by rewrite <- app_assoc.
  - apply not_true_is_false in Hm. rewrite Hm. rewrite Hext.
    rewrite (cons_middle el d1 d2), app_assoc.
    rewrite IH. by rewrite <- app_assoc.
Qed.

Lemma with_page_id w : with_page (dom w) (activated w) w = w.
Proof. by destruct w. Qed.

Lemma with_cookies_id w : with_cookies (jar w) (cookie_log w) w = w.
Proof. by destruct w. Qed.

Lemma foldl_replaceChild_eq ps w :
  foldl (fun w p => replaceChild p.1 (live_script p.2) w) w ps
  = with_page (foldl (fun d p => <[p.1 := live_script p.2]> d) (dom w) ps)
              (activated w ++ map live_script ps.*2) w.
Proof.
  revert w. induction ps as [|p ps IH]; intros w; simpl.
  - by rewrite app_nil_r, with_page_id.
  - rewrite IH. simpl. by rewrite <- app_assoc.
Qed.

(** [activateScripts] in closed form: every matching declaration is
    replaced where it stands, the inserted scripts run in document order,
    and nothing else in the world changes. *)
Lemma activateScripts_eq category w :
  activateScripts category w
  = with_page (map (activate_if category) (dom w))
              (activated w ++ map live_script (pending category w)) w.
Proof.
  unfold activateScripts, pending.
  rewrite foldl_replaceChild_eq, querySelectorAll_elements.
  f_equal. apply (foldl_insert_matching category [] (dom w)).
Qed.

Lemma pending_activateScripts_same category w :
  pending category (activateScripts category w) = [].
Proof.
  rewrite activateScripts_eq. unfold pending. simpl.
  induction (dom w) as [|el d IH]; [done|].
  simpl. rewrite filter_cons, IH. unfold activate_if.
  destruct (matches_selector category el) eqn:Hm.
  - by rewrite live_script_not_inert.
  - by rewrite Hm.
Qed.

Lemma pending_activateScripts_other c c' w :
  c ≠ c' → pending c (activateScripts c' w) = pending c w.
Proof.
  intros Hne. rewrite activateScripts_eq. unfold pending. simpl.
  induction (dom w) as [|el d IH]; [done|].
  simpl. rewrite !filter_cons, IH. unfold activate_if.
  destruct (matches_selector c' el) eqn:Hm'; [|done].
  rewrite live_script_not_inert.
  destruct (decide (matches_selector c el = true)) as [Hm|Hm]; [|done].
  destruct Hne. eapply matches_selector_inj; eauto.
Qed.

Lemma activateScripts_nothing_pending category w :
  pending category w = [] → activateScripts category w = w.
Proof.
  intros Hp. rewrite activateScripts_eq, Hp. simpl. rewrite app_nil_r.
  transitivity (with_page (dom w) (activated w) w); [|apply with_page_id].
  f_equal.
  unfold pending in Hp. induction (dom w) as [|el d IH]; [done|].
  rewrite filter_cons in Hp. simpl. unfold activate_if at 1.
  destruct (decide (matches_selector category el = true)) as [Hm|Hm];
    [done|].
  apply not_true_is_false in Hm. rewrite Hm. f_equal. by apply IH.
Qed.

(** ** Cookie writes *)

Lemma cookie_writes_eq l w :
  cookie_writes l w
  = with_cookies (foldl (jar_after (clock w)) (jar w) l)
                 (cookie_log w ++ l) w.
Proof.
  unfold cookie_writes. revert w.
  induction l as [|cw l IH]; intros w; simpl.
  - by rewrite app_nil_r, with_cookies_id.
  - rewrite IH. simpl. by rewrite <- app_assoc.
Qed.

Lemma cookie_writes_app l1 l2 w :
  cookie_writes (l1 ++ l2) w = cookie_writes l2 (cookie_writes l1 w).
Proof. unfold cookie_writes. apply foldl_app. Qed.

Lemma deleteCookies_eq category w :
  deleteCookies category w = cookie_writes (purge_writes w category) w.
Proof.
  unfold deleteCookies, purge_writes, cookie_names.
  generalize (match COOKIE_MAP w !! category with
              | Some names => names
              | None => []
              end).
  intros names.
  enough (∀ h w, hostname w = h →
            foldl (fun w name =>
                     foldl (fun w tail =>
                              document_cookie_set (expired_cookie name tail) w)
                           w (tails (hostname w))) w names
            = cookie_writes
                (names ≫= (fun name => expired_cookie name <$> tails h)) w)
    as H by by apply H.
  intros h. induction names as [|name names IH]; intros w' Hh; [done|].
  rewrite bind_cons, cookie_writes_app. cbn [foldl]. rewrite Hh.
  assert (Hin : ∀ tl w,
            foldl (fun w tail =>
                     document_cookie_set (expired_cookie name tail) w) w tl
            = cookie_writes (expired_cookie name <$> tl) w).
  { unfold cookie_writes. intros tl.
    induction tl as [|t tl IHtl]; intros w0; [done|]. simpl. apply IHtl. }
  rewrite Hin. apply IH. rewrite cookie_writes_eq. simpl. exact Hh.
Qed.

Lemma revoke_eq old p w :
  revoke old p w = cookie_writes (revoked old p w ≫= purge_writes w) w.
Proof.
  unfold revoke, revoked. generalize (Obj.keys (CATEGORIES w)).
  intros ks.
  enough (∀ w', COOKIE_MAP w' = COOKIE_MAP w → hostname w' = hostname w →
            foldl (fun w cat =>
                     if truthy (Obj.get old cat)
                        && negb (truthy (Obj.get p cat))
                     then deleteCookies cat w else w) w' ks
            = cookie_writes
                (filter (fun cat =>
                           truthy (Obj.get old cat)
                           && negb (truthy (Obj.get p cat)) = true) ks
                   ≫= purge_writes w) w') as H by by apply H.
  induction ks as [|k ks IH]; intros w' Hm Hh; [done|].
  simpl. rewrite filter_cons.
  destruct (truthy (Obj.get old k) && negb (truthy (Obj.get p k))) eqn:Hc.
  - rewrite decide_True by done. rewrite bind_cons, cookie_writes_app.
    rewrite deleteCookies_eq.
    assert (purge_writes w' k = purge_writes w k) as ->.
    { unfold purge_writes, cookie_names. by rewrite Hm, Hh. }
    apply IH; rewrite cookie_writes_eq; simpl; done.
  - rewrite decide_False by done. by apply IH.
Qed.

(** ** The activation loop *)

Lemma activateAllowed_cons e (p : Prefs) w :
  activateAllowed (e :: p) w
  = activateAllowed p (if e.2 then activateScripts e.1 w else w).
Proof. done. Qed.

Lemma activateAllowed_app (p q : Prefs) w :
  activateAllowed (p ++ q) w = activateAllowed q (activateAllowed p w).
Proof. unfold activateAllowed, Obj.entries. apply foldl_app. Qed.

(** The loop touches the document and the list of inserted scripts
    only. *)
Lemma activateAllowed_page (p : Prefs) w :
  activateAllowed p w
  = with_page (dom (activateAllowed p w)) (activated (activateAllowed p w)) w.
Proof.
  revert w. induction p as [|[c b] p IH]; intros w.
  - by rewrite with_page_id.
  - rewrite activateAllowed_cons. simpl. destruct b; [|apply IH].
    rewrite IH at 1. by rewrite activateScripts_eq.
Qed.

Lemma pending_activateScripts_nil c c' w :
  pending c w = [] → pending c (activateScripts c' w) = [].
Proof.
  intros Hp. destruct (decide (c = c')) as [->|Hne].
  - apply pending_activateScripts_same.
  - by rewrite pending_activateScripts_other.
Qed.

Lemma pending_activateAllowed_nil c (q : Prefs) w :
  pending c w = [] → pending c (activateAllowed q w) = [].
Proof.
  revert w. induction q as [|[c' b] q IH]; intros w Hp; [done|].
  rewrite activateAllowed_cons. simpl. apply IH.
  destruct b; [|done]. by apply pending_activateScripts_nil.
Qed.

Lemma pending_activateAllowed_true c (p : Prefs) w :
  (c, true) ∈ p → pending c (activateAllowed p w) = [].
Proof.
  intros Hin. apply list_elem_of_split in Hin as (p1 & p2 & ->).
  rewrite activateAllowed_app, activateAllowed_cons. simpl.
  apply pending_activateAllowed_nil, pending_activateScripts_same.
Qed.

Lemma activateAllowed_nothing_pending (q : Prefs) w :
  (∀ c, (c, true) ∈ q → pending c w = []) → activateAllowed q w = w.
Proof.
  induction q as [|[c b] q IH]; intros Hq; [done|].
  rewrite activateAllowed_cons. simpl.
  assert (Hw : (if b then activateScripts c w else w) = w).
  { destruct b; [|done]. apply activateScripts_nothing_pending, Hq.
    apply list_elem_of_here. }
  rewrite Hw. apply IH. intros c' Hc'. apply Hq.
  by apply list_elem_of_further.
Qed.

Lemma activated_activateScripts_mono c w s :
  s ∈ activated w → s ∈ activated (activateScripts c w).
Proof.
  intros Hs. rewrite activateScripts_eq. simpl.
  apply elem_of_app. by left.
Qed.

Lemma activated_activateAllowed_mono (q : Prefs) w s :
  s ∈ activated w → s ∈ activated (activateAllowed q w).
Proof.
  revert w. induction q as [|[c b] q IH]; intros w Hs; [done|].
  rewrite activateAllowed_cons. simpl. apply IH.
  destruct b; [|done]. by apply activated_activateScripts_mono.
Qed.

(** A declaration pending for an allowed category ends up activated. *)
Lemma activated_activateAllowed_true c (p : Prefs) w el :
  (c, true) ∈ p → el ∈ pending c w →
  live_script el ∈ activated (activateAllowed p w).
Proof.
  revert w. induction p as [|[c' b] p IH]; intros w Hin Hel.
  - by apply elem_of_nil in Hin.
  - rewrite activateAllowed_cons. simpl.
    destruct (decide (c' = c ∧ b = true)) as [[-> ->]|Hne].
    + apply activated_activateAllowed_mono.
      rewrite activateScripts_eq. simpl.
      apply elem_of_app. right. by apply list_elem_of_fmap_2.
    + apply IH.
      * apply elem_of_cons in Hin as [[= <- <-]|Hin]; [|done].
        by destruct Hne.
      * destruct b; [|done].
        rewrite pending_activateScripts_other; [done|].
        intros <-. by destruct Hne.
Qed.

(** What a run of the loop adds to the inserted scripts when nothing is
    pending for [c]: live counterparts of inert declarations of other
    categories. *)
Lemma activated_activateAllowed_other c (q : Prefs) w :
  pending c w = [] →
  ∃ srcs, activated (activateAllowed q w)
          = activated w ++ map live_script srcs
          ∧ Forall (fun el => ∃ c', c' ≠ c
                              ∧ matches_selector c' el = true) srcs.
Proof.
  revert w. induction q as [|[c' b] q IH]; intros w Hp.
  - exists []. split; [by rewrite app_nil_r|done].
  - rewrite activateAllowed_cons. simpl. destruct b; [|by apply IH].
    destruct (IH (activateScripts c' w)) as (srcs & Ha & Hs).
    { by apply pending_activateScripts_nil. }
    destruct (decide (c' = c)) as [->|Hne].
    + exists srcs. split; [|done].
      rewrite Ha. by rewrite activateScripts_nothing_pending.
    + exists (pending c' w ++ srcs). split.
      * rewrite Ha, activateScripts_eq. simpl.
        by rewrite map_app, <- app_assoc.
      * apply Forall_app. split; [|done].
        apply Forall_forall. intros el Hel. exists c'. split; [done|].
        unfold pending in Hel. by apply list_elem_of_filter in Hel as [? _].
Qed.

(** The page after the loop depends on the page before it only. *)
Lemma activateAllowed_page_only (p : Prefs) w w' :
  dom w = dom w' → activated w = activated w' →
  dom (activateAllowed p w) = dom (activateAllowed p w')
  ∧ activated (activateAllowed p w) = activated (activateAllowed p w').
Proof.
  revert w w'. induction p as [|[c b] p IH]; intros w w' Hd Ha; [done|].
  rewrite !activateAllowed_cons. simpl. destruct b; [|by apply IH].
  apply IH; rewrite !activateScripts_eq; simpl; unfold pending;
    by rewrite Hd, ?Ha.
Qed.

(** ** Persistence *)

(** Both outcomes of the primary write in [save]. *)
Ltac save_cases w :=
  unfold save, localStorage_setItem;
  destruct (ls_available w && negb (ls_quota_full w)); simpl.

Section Persistence.
Variable v : string.

Lemma save_page p w :
  dom (save v p w) = dom w ∧ activated (save v p w) = activated w.
Proof. by save_cases w. Qed.

Lemma save_consent p w : consent (save v p w) = consent w.
Proof. by save_cases w. Qed.

Lemma save_events p w : events (save v p w) = events w.
Proof. by save_cases w. Qed.

Lemma save_cookie_log p w :
  ∃ l, cookie_log (save v p w) = cookie_log w ++ l
       ∧ Forall (fun cw => cw_name cw = STORAGE_KEY) l.
Proof.
  save_cases w.
  - exists []. by rewrite app_nil_r.
  - eexists. split; [done|]. by apply Forall_singleton.
Qed.

Lemma purged_eq p w :
  purged p w
  = cookie_writes (match consent w with
                   | Some old => revoked old p w ≫= purge_writes w
                   | None => []
                   end) w.
Proof.
  unfold purged. destruct (consent w); [apply revoke_eq|done].
Qed.

Lemma applyConsent_unfold p w :
  applyConsent v p w
  = let w1 := save v p (activateAllowed p (with_consent (Some p) (purged p w)))
    in with_events (events w1 ++ [p]) w1.
Proof. done. Qed.

Lemma applyConsent_consent p w : consent (applyConsent v p w) = Some p.
Proof.
  rewrite applyConsent_unfold. simpl. rewrite save_consent.
  by rewrite activateAllowed_page.
Qed.

Lemma applyConsent_page p w :
  dom (applyConsent v p w) = dom (activateAllowed p w)
  ∧ activated (applyConsent v p w) = activated (activateAllowed p w).
Proof.
  rewrite applyConsent_unfold. simpl.
  destruct (save_page p (activateAllowed p
              (with_consent (Some p) (purged p w)))) as [-> ->].
  apply activateAllowed_page_only; simpl;
    by rewrite purged_eq, cookie_writes_eq.
Qed.

Lemma applyConsent_pending p c w :
  pending c (applyConsent v p w) = pending c (activateAllowed p w).
Proof. unfold pending. by destruct (applyConsent_page p w) as [-> _]. Qed.

Lemma applyConsent_cookie_log p w :
  ∃ l, cookie_log (applyConsent v p w)
       = cookie_log w
         ++ match consent w with
            | Some old => revoked old p w ≫= purge_writes w
            | None => []
            end ++ l
       ∧ Forall (fun cw => cw_name cw = STORAGE_KEY) l.
Proof.
  rewrite applyConsent_unfold. simpl.
  destruct (save_cookie_log p (activateAllowed p
              (with_consent (Some p) (purged p w)))) as (l & -> & HF).
  exists l. split; [|done]. rewrite activateAllowed_page. simpl.
  rewrite purged_eq, cookie_writes_eq. simpl. by rewrite <- app_assoc.
Qed.

End Persistence.

(** ** The cookie jar *)

Lemma same_cookie_true a b :
  same_cookie a b = true
  ↔ c_name a = c_name b ∧ c_domain a = c_domain b ∧ c_path a = c_path b.
Proof.
  unfold same_cookie. rewrite !andb_true_iff, !bool_decide_eq_true.
  tauto.
Qed.

Lemma match_jar_store c j :
  c_domain c = None → c_path c = "/" → jar_own (c_name c) j →
  document_cookie_match (c_name c) (jar_store c j) = Some (c_value c).
Proof.
  intros Hd Hp. induction j as [|c' j IH]; intros Hown; simpl.
  - by rewrite bool_decide_true.
  - destruct (same_cookie c' c) eqn:Hs; simpl.
    + by rewrite bool_decide_true.
    + case_bool_decide as Hn.
      * destruct (Hown c') as [Hd' Hp']; [apply list_elem_of_here|done|].
        assert (same_cookie c' c = true) as Hs'; [|congruence].
        apply same_cookie_true. by rewrite Hd, Hp, Hd', Hp'.
      * apply IH. intros c0 Hc0. apply Hown. by apply list_elem_of_further.
Qed.

Lemma match_jar_evict c j :
  c_domain c = None → c_path c = "/" → jar_own (c_name c) j →
  document_cookie_match (c_name c) (jar_evict c j) = None.
Proof.
  intros Hd Hp. unfold jar_evict.
  induction j as [|c' j IH]; intros Hown; [done|].
  assert (Hj : jar_own (c_name c) j).
  { intros c0 Hc0. apply Hown. by apply list_elem_of_further. }
  rewrite filter_cons. destruct (same_cookie c' c) eqn:Hs.
  - rewrite decide_False by done. by apply IH.
  - rewrite decide_True by done. simpl. case_bool_decide as Hn.
    + destruct (Hown c') as [Hd' Hp']; [apply list_elem_of_here|done|].
      assert (same_cookie c' c = true) as Hs'; [|congruence].
      apply same_cookie_true. by rewrite Hd, Hp, Hd', Hp'.
    + by apply IH.
Qed.


(** ** Specification properties *)

Section Claims.
Implicit Types (w : World) (p q : Prefs) (v : string).

Lemma save_primary v p w w' :
  localStorage_setItem STORAGE_KEY (JSON_stringify (saved_payload v p w)) w
  = Some w' →
  save v p w = w'
  ∧ ls_available w' = true
  ∧ ls_items w' !! STORAGE_KEY = Some (Json (saved_payload v p w))
  ∧ jar w' = jar w ∧ cookie_log w' = cookie_log w.
Proof.
  intros H. unfold save. fold (saved_payload v p w). rewrite H.
  split; [done|]. unfold localStorage_setItem in H.
  destruct (ls_available w) eqn:Ha; [|done].
  destruct (ls_quota_full w); [done|]. simpl in H.
  injection H as <-. simpl. by rewrite lookup_insert_eq.
Qed.

Lemma save_fallback v p w :
  localStorage_setItem STORAGE_KEY (JSON_stringify (saved_payload v p w)) w
  = None →
  jar_own STORAGE_KEY (jar w) →
  (∀ v', load_primary v' (save v p w) = load_primary v' w)
  ∧ document_cookie_match STORAGE_KEY (jar (save v p w))
    = Some (Json (saved_payload v p w)).
Proof.
  intros H Hown. unfold save. fold (saved_payload v p w). rewrite H.
  split; [done|]. simpl.
  assert ((clock w + 365 * 86400000 <? clock w) = false) as ->
    by (apply Z.ltb_ge; lia).
  by apply (match_jar_store
              {| c_name := STORAGE_KEY;
                 c_value := Json (saved_payload v p w);
                 c_domain := None; c_path := "/" |}).
Qed.

Lemma load_primary_hit v w d :
  ls_available w = true → ls_items w !! STORAGE_KEY = Some (Json d) →
  load_primary v w
  = if bool_decide (version d = v) then Some (prefs d) else None.
Proof.
  intros Ha Hi. unfold load_primary, localStorage_getItem.
  by rewrite Ha, Hi.
Qed.

Lemma load_fallback_hit v w d :
  document_cookie_match STORAGE_KEY (jar w) = Some (Json d) →
  load_fallback v w
  = if bool_decide (version d = v) then Some (prefs d) else None.
Proof. intros Hm. unfold load_fallback. by rewrite Hm. Qed.

(** C3, as the code has it.  [load()] after [save(prefs)] returns
    [prefs] under the same version when the primary write succeeded, and
    also when it failed, provided the primary store then yields no
    payload of that version and the only [cookie_consent] cookies are the
    host-only ones at path [/].  Under another version at load time,
    [load()] returns what the store that was not written yields for that
    version (no record when it holds no payload of that version), while
    the saved payload is still in the store. *)
Theorem load_after_save v v' p w :
  let payload := JSON_stringify (saved_payload v p w) in
  (is_Some (localStorage_setItem STORAGE_KEY payload w) →
   load v (save v p w) = Some p
   ∧ ls_items (save v p w) !! STORAGE_KEY = Some payload
   ∧ (v' ≠ v → load v' (save v p w) = load_fallback v' w))
  ∧ (localStorage_setItem STORAGE_KEY payload w = None →
     jar_own STORAGE_KEY (jar w) →
     (load_primary v w = None → load v (save v p w) = Some p)
     ∧ document_cookie_match STORAGE_KEY (jar (save v p w)) = Some payload
     ∧ (v' ≠ v → load v' (save v p w) = load_primary v' w)).
Proof.
  simpl. split.
  - intros [w' Hw']. destruct (save_primary _ _ _ _ Hw')
      as (-> & Ha & Hi & Hj & _).
    split; [|split; [done|]].
    + unfold load. rewrite (load_primary_hit _ _ _ Ha Hi). simpl.
      by rewrite bool_decide_true.
    + intros Hne. unfold load. rewrite (load_primary_hit _ _ _ Ha Hi).
      simpl. rewrite bool_decide_false by done.
      unfold load_fallback. by rewrite Hj.
  - intros Hnone Hown.
    destruct (save_fallback _ _ _ Hnone Hown) as [Hp Hm].
    split; [|split; [done|]].
    + intros Hprim. unfold load. rewrite Hp, Hprim.
      rewrite (load_fallback_hit _ _ _ Hm). simpl.
      by rewrite bool_decide_true.
    + intros Hne. unfold load. rewrite Hp.
      rewrite (load_fallback_hit _ _ _ Hm). simpl.
      rewrite bool_decide_false by done. by destruct (load_primary v' w).
Qed.

(** C8: [load()] goes on to the fallback cookie when the primary store
    has no payload, when its payload does not parse, and also when its
    payload parses but carries another version; in that last case a
    fallback payload of the compiled version is what [load()] returns. *)
Theorem load_reads_fallback_on_mismatch v w :
  (localStorage_getItem STORAGE_KEY w = Some None →
   load v w = load_fallback v w)
  ∧ (∀ s, localStorage_getItem STORAGE_KEY w = Some (Some (Plain s)) →
          load v w = load_fallback v w)
  ∧ (∀ d, localStorage_getItem STORAGE_KEY w = Some (Some (Json d)) →
          version d ≠ v →
          load v w = load_fallback v w
          ∧ ∀ d', document_cookie_match STORAGE_KEY (jar w)
                  = Some (Json d') →
                  version d' = v → load v w = Some (prefs d')).
Proof.
  unfold load, load_primary. split; [|split].
  - by intros ->.
  - intros s ->. by destruct (text_truthy (Plain s)).
  - intros d -> Hne. simpl. rewrite bool_decide_false by done.
    split; [done|]. intros d' Hm Hv.
    rewrite (load_fallback_hit _ _ _ Hm). by rewrite bool_decide_true.
Qed.

(** C9: when the write to the primary store succeeds, [save] leaves the
    cookie jar as it was and assigns nothing to [document.cookie]. *)
Theorem save_primary_leaves_fallback v p w :
  is_Some (localStorage_setItem STORAGE_KEY
             (JSON_stringify (saved_payload v p w)) w) →
  jar (save v p w) = jar w ∧ cookie_log (save v p w) = cookie_log w.
Proof.
  intros [w' Hw']. by destruct (save_primary _ _ _ _ Hw') as (-> & _ & _ & ?).
Qed.

(** C6: [hasConsent] is [false] for every key while there is no current
    record, and the stored boolean of the key once there is one. *)
Theorem hasConsent_spec (key : string) w :
  (consent w = None → hasConsent key w = false)
  ∧ (∀ r b, consent w = Some r → Obj.get r key = Some b →
            hasConsent key w = b).
Proof.
  unfold hasConsent. split.
  - by intros ->.
  - intros r b -> Hb. by rewrite Hb.
Qed.

Lemma get_keys_true (ks : list string) k :
  k ∈ ks → Obj.get (map (fun k => (k, true)) ks) k = Some true.
Proof.
  induction ks as [|k' ks IH]; intros Hin; [by apply elem_of_nil in Hin|].
  simpl. case_bool_decide as Hk; [done|].
  apply elem_of_cons in Hin as [->|Hin]; [done|]. by apply IH.
Qed.

Lemma keys_keys_true (ks : list string) :
  Obj.keys (map (fun k => (k, true)) ks) = ks.
Proof.
  unfold Obj.keys. induction ks as [|k ks IH]; [done|]. simpl. by f_equal.
Qed.

Lemma get_Some_key {V} (o : list (string * V)) k x :
  Obj.get o k = Some x → k ∈ Obj.keys o.
Proof.
  intros H. apply ObjFacts.get_Some_elem in H.
  unfold Obj.keys. by apply (list_elem_of_fmap_2 fst) in H.
Qed.

Lemma defaultPrefs_required w k d :
  Obj.wf (CATEGORIES w) →
  Obj.get (CATEGORIES w) k = Some d → required d = true →
  Obj.get (defaultPrefs w) k = Some true.
Proof.
  intros Hwf Hk Hr. unfold defaultPrefs, Obj.entries.
  rewrite ObjFacts.fromEntries_wf.
  - rewrite (ObjFacts.get_fmap
               (fun d => if required d then true else default d)).
    rewrite Hk. simpl. by rewrite Hr.
  - unfold Obj.wf.
    by rewrite (ObjFacts.keys_fmap
                  (fun d => if required d then true else default d)).
Qed.

(** C1, as the code has it.  Every record that [defaultPrefs] builds has
    every required category [true], and so have the records that
    [rejectAll] and [acceptAll] install.  [applyConsent] installs the
    record it is given as it is: a required key keeps the value the
    caller chose. *)
Theorem required_invariant v w k d :
  Obj.wf (CATEGORIES w) →
  Obj.get (CATEGORIES w) k = Some d → required d = true →
  Obj.get (defaultPrefs w) k = Some true
  ∧ (∃ r, consent (rejectAll v w) = Some r ∧ Obj.get r k = Some true)
  ∧ (∃ r, consent (acceptAll v w) = Some r ∧ Obj.get r k = Some true)
  ∧ (∀ p, consent (applyConsent v p w) = Some p).
Proof.
  intros Hwf Hk Hr. split; [by eapply defaultPrefs_required|].
  split; [|split].
  - eexists. split; [apply applyConsent_consent|].
    by eapply defaultPrefs_required.
  - eexists. split; [apply applyConsent_consent|].
    rewrite ObjFacts.fromEntries_wf.
    + apply get_keys_true. by eapply get_Some_key.
    + unfold Obj.wf. by rewrite keys_keys_true.
  - intros p. apply applyConsent_consent.
Qed.

(** C2, as the code has it.  For every key of the category registry that
    is [true] in the old current record and not [true] in the record
    passed to [applyConsent], a deletion is attempted for each cookie
    name mapped to the key at each of the three scopes; afterwards the
    current record is the new one and the key is not consented to. *)
Theorem revocation_purges_registered v w old p k :
  consent w = Some old →
  k ∈ Obj.keys (CATEGORIES w) →
  Obj.get old k = Some true →
  Obj.get p k ≠ Some true →
  let w' := applyConsent v p w in
  (∀ name tail, name ∈ cookie_names w k → tail ∈ tails (hostname w) →
                expired_cookie name tail ∈ cookie_log w')
  ∧ consent w' = Some p
  ∧ hasConsent k w' = false
  ∧ ∃ l, cookie_log w'
         = cookie_log w ++ (revoked old p w ≫= purge_writes w) ++ l
         ∧ Forall (fun cw => cw_name cw = STORAGE_KEY) l.
Proof.
  intros Hold Hk Hk1 Hk2.
  assert (Hp : truthy (Obj.get p k) = false).
  { destruct (Obj.get p k) as [[]|]; done. }
  cbv zeta. split; [|split; [|split]]; cycle 3.
  { destruct (applyConsent_cookie_log v p w) as (l & Hl & HF).
    rewrite Hold in Hl. by exists l. }
  - intros name tail Hname Htail.
    destruct (applyConsent_cookie_log v p w) as (l & -> & _). rewrite Hold.
    rewrite !elem_of_app. right. left.
    apply list_elem_of_bind. exists k. split.
    + unfold purge_writes. apply list_elem_of_bind. exists name.
      split; [|done]. by apply list_elem_of_fmap_2.
    + unfold revoked. apply list_elem_of_filter. split; [|done].
      by rewrite Hk1, Hp.
  - apply applyConsent_consent.
  - unfold hasConsent. by rewrite applyConsent_consent.
Qed.

Lemma reset_eq w :
  0 < clock w →
  reset w
  = with_reloads (S (reloads w))
      (with_cookies (jar_evict consent_cookie (jar w))
                    (cookie_log w ++ [consent_cookie_expiry])
         (if ls_available w
          then with_ls_items (delete STORAGE_KEY (ls_items w)) w
          else w)).
Proof.
  intros Hc. unfold reset, localStorage_removeItem, document_cookie_set.
  destruct (ls_available w); simpl;
    by assert ((0 <? clock w) = true) as -> by (apply Z.ltb_lt; lia).
Qed.

Lemma load_after_reset v w :
  0 < clock w → jar_own STORAGE_KEY (jar w) → load v (reset w) = None.
Proof.
  intros Hc Hown. rewrite reset_eq by done.
  unfold load, load_primary, load_fallback, localStorage_getItem. simpl.
  rewrite (match_jar_evict consent_cookie) by done.
  destruct (ls_available w) eqn:Ha; simpl; rewrite Ha; [|done].
  by rewrite lookup_delete_eq.
Qed.




(** C5: [activateScripts] replaces each inert declaration of the category
    by its live counterpart, once and where it stands; none is inert
    afterwards, so a second call changes nothing.  After [applyConsent]
    with the category allowed, a further [applyConsent] inserts live
    counterparts of inert declarations of other categories only, and
    applying the same record again inserts nothing. *)
Theorem activation_exactly_once v category w :
  let w1 := activateScripts category w in
  dom w1 = map (activate_if category) (dom w)
  ∧ activated w1 = activated w ++ map live_script (pending category w)
  ∧ pending category w1 = []
  ∧ activateScripts category w1 = w1
  ∧ ∀ p, Obj.get p category = Some true →
      let w2 := applyConsent v p w in
      pending category w2 = []
      ∧ (∀ q, ∃ srcs,
           activated (applyConsent v q w2)
           = activated w2 ++ map live_script srcs
           ∧ Forall (fun el => ∃ c', c' ≠ category
                               ∧ matches_selector c' el = true) srcs)
      ∧ dom (applyConsent v p w2) = dom w2
      ∧ activated (applyConsent v p w2) = activated w2.
Proof.
  cbv zeta. split; [|split; [|split; [|split]]].
  - by rewrite activateScripts_eq.
  - by rewrite activateScripts_eq.
  - apply pending_activateScripts_same.
  - apply activateScripts_nothing_pending, pending_activateScripts_same.
  - intros p Hp. apply ObjFacts.get_Some_elem in Hp.
    assert (Hnil : pending category (applyConsent v p w) = []).
    { rewrite applyConsent_pending.
      by apply pending_activateAllowed_true. }
    split; [done|]. split.
    + intros q.
      destruct (applyConsent_page v q (applyConsent v p w)) as [_ ->].
      by apply activated_activateAllowed_other.
    + destruct (applyConsent_page v p (applyConsent v p w)) as [-> ->].
      rewrite activateAllowed_nothing_pending; [done|].
      intros c Hc. rewrite applyConsent_pending.
      by apply pending_activateAllowed_true.
Qed.

Lemma init_unfold_none v options w :
  load v w = None →
  init v options w
  = let w0 := match opt_categories options with
              | Some c =>
                  with_config (Obj.assign (CATEGORIES w) c) (COOKIE_MAP w) w
              | None => w
              end in
    let w0 := match opt_cookieMap options with
              | Some m => with_config (CATEGORIES w0) (m ∪ COOKIE_MAP w0) w0
              | None => w0
              end in
    let w1 := activateScripts "necessary" w0 in
    with_banner (if loading w1 then BannerDeferred else BannerShown) w1.
Proof.
  intros Hload. unfold init.
  destruct (opt_categories options), (opt_cookieMap options);
    unfold load, load_primary, load_fallback, localStorage_getItem in *;
    simpl in *; by rewrite Hload.
Qed.

(** C7: when [load()] finds no record, [init] activates the declarations
    of the [necessary] category, each once and in document order, and
    no declaration of any other category; it installs no record. *)
Theorem init_without_record v options w :
  load v w = None →
  let w' := init v options w in
  dom w' = map (activate_if "necessary") (dom w)
  ∧ activated w'
    = activated w ++ map live_script (pending "necessary" w)
  ∧ pending "necessary" w' = []
  ∧ (∀ c, c ≠ "necessary" → pending c w' = pending c w)
  ∧ consent w' = consent w
  ∧ events w' = events w.
Proof.
  intros Hload. cbv zeta. rewrite init_unfold_none by done.
  assert (Hcfg : ∃ c m, (let w0 := match opt_categories options with
              | Some c =>
                  with_config (Obj.assign (CATEGORIES w) c) (COOKIE_MAP w) w
              | None => w
              end in
           match opt_cookieMap options with
              | Some m => with_config (CATEGORIES w0) (m ∪ COOKIE_MAP w0) w0
              | None => w0
              end) = with_config c m w).
  { destruct (opt_categories options), (opt_cookieMap options);
      simpl; eauto. exists (CATEGORIES w), (COOKIE_MAP w). by destruct w. }
  cbv zeta in *. destruct Hcfg as (c & m & ->).
  pose proof (pending_activateScripts_same "necessary" (with_config c m w))
    as Hsame.
  pose proof (fun c0 H =>
                pending_activateScripts_other c0 "necessary"
                  (with_config c m w) H) as Hother.
  rewrite activateScripts_eq in *. simpl.
  split; [done|]. split; [done|]. split; [done|]. split; [|done].
  intros c0 Hc0. by apply Hother.
Qed.

(** C10: [applyConsent] activates the declarations of every key that is
    [true] in the applied record, whether the registry has the key or
    not: each declaration pending for the key is inserted live, and none
    is pending afterwards. *)
Theorem applyConsent_activates_every_true_key v p w k :
  Obj.get p k = Some true →
  let w' := applyConsent v p w in
  (∀ el, el ∈ pending k w → live_script el ∈ activated w')
  ∧ pending k w' = [].
Proof.
  intros Hk. apply ObjFacts.get_Some_elem in Hk. cbv zeta. split.
  - intros el Hel. destruct (applyConsent_page v p w) as [_ ->].
    by eapply activated_activateAllowed_true.
  - rewrite applyConsent_pending. by apply pending_activateAllowed_true.
Qed.

End Claims.

(** ** The properties on the example sessions *)

(** The invariant of [defaultPrefs] on a first visit. *)
Lemma required_invariant_witness :
  Obj.wf (CATEGORIES first_visit)
  ∧ Obj.get (defaultPrefs first_visit) "necessary" = Some true
  ∧ ∀ p, consent (applyConsent "2" p first_visit) = Some p.
Proof.
  assert (Hwf : Obj.wf (CATEGORIES first_visit)) by (unfold Obj.wf; compute_done).
  split; [exact Hwf|].
  destruct (required_invariant "2" first_visit "necessary"
              {| label := "Necessary";
                 description :=
                   "Required for the website to function. Cannot be disabled.";
                 required := true; default := true |}
              Hwf eq_refl eq_refl) as (H1 & _ & _ & H2).
  split; [exact H1|exact H2].
Defined.

(** C1 fails for [applyConsent]: the registry marks [necessary] required,
    and the record installed is the caller's, with [necessary] false. *)
Lemma applyConsent_installs_required_false :
  let w' := applyConsent "2" [("necessary", false)] first_visit in
  required <$> Obj.get (CATEGORIES w') "necessary" = Some true
  ∧ consent w' = Some [("necessary", false)]
  ∧ Obj.get [("necessary", false)] "necessary" = Some false.
Proof. vm_compute. done. Qed.

(** Declining everything after accepting everything purges the
    cookies of [marketing]. *)
Lemma revocation_purges_registered_witness :
  consent decided
  = Some [("necessary", true); ("analytics", true); ("marketing", true);
          ("preferences", true)]
  ∧ "marketing" ∈ Obj.keys (CATEGORIES decided)
  ∧ Obj.get (defaultPrefs decided) "marketing" ≠ Some true
  ∧ (∀ name tail,
       name ∈ cookie_names decided "marketing" →
       tail ∈ tails (hostname decided) →
       expired_cookie name tail
       ∈ cookie_log (applyConsent "2" (defaultPrefs decided) decided))
  ∧ hasConsent "marketing" (applyConsent "2" (defaultPrefs decided) decided)
    = false.
Proof.
  assert (H1 : consent decided
               = Some [("necessary", true); ("analytics", true);
                       ("marketing", true); ("preferences", true)])
    by (vm_compute; reflexivity).
  assert (H2 : "marketing" ∈ Obj.keys (CATEGORIES decided))
    by compute_done.
  assert (H3 : Obj.get (defaultPrefs decided) "marketing" ≠ Some true)
    by (vm_compute; discriminate).
  destruct (revocation_purges_registered "2" decided _
              (defaultPrefs decided) "marketing" H1 H2 eq_refl H3)
    as (H4 & _ & H5 & _).
  split; [exact H1|]. split; [exact H2|]. split; [exact H3|].
  split; [exact H4|exact H5].
Defined.

(** C2 fails for a key the registry does not have: [social] is [true] in
    the current record and not [true] in the record that [rejectAll]
    applies, a cookie name is mapped to it, and nothing is assigned to
    [document.cookie]. *)
Lemma revocation_skips_unregistered_key :
  consent social_session = Some [("necessary", true); ("social", true)]
  ∧ Obj.get (defaultPrefs social_session) "social" = None
  ∧ cookie_names social_session "social" = ["sid"]
  ∧ Obj.get (CATEGORIES social_session) "social" = None
  ∧ cookie_log (rejectAll "2" social_session) = []
  ∧ consent (rejectAll "2" social_session)
    = Some (defaultPrefs social_session).
Proof. vm_compute. done. Qed.

(** [load] after [save] on a first visit (primary store) and without
    [localStorage] (fallback cookie). *)
Lemma load_after_save_witness :
  let p := [("necessary", true); ("analytics", true)] in
  is_Some (localStorage_setItem STORAGE_KEY
             (JSON_stringify (saved_payload "2" p first_visit)) first_visit)
  ∧ load "2" (save "2" p first_visit) = Some p
  ∧ load "3" (save "2" p first_visit) = load_fallback "3" first_visit
  ∧ localStorage_setItem STORAGE_KEY
      (JSON_stringify (saved_payload "2" p no_storage)) no_storage = None
  ∧ jar_own STORAGE_KEY (jar no_storage)
  ∧ load "2" (save "2" p no_storage) = Some p.
Proof.
  cbv zeta.
  destruct (load_after_save "2" "3"
              [("necessary", true); ("analytics", true)] first_visit)
    as [Hprim _].
  destruct (load_after_save "2" "3"
              [("necessary", true); ("analytics", true)] no_storage)
    as [_ Hfall].
  assert (H1 : is_Some (localStorage_setItem STORAGE_KEY
             (JSON_stringify
                (saved_payload "2" [("necessary", true); ("analytics", true)]
                   first_visit)) first_visit))
    by (vm_compute; eauto).
  assert (H2 : jar_own STORAGE_KEY (jar no_storage)).
  { intros c Hc. vm_compute in Hc. by apply elem_of_nil in Hc. }
  destruct (Hprim H1) as (Ha & _ & Hb).
  destruct (Hfall eq_refl H2) as (Hc & _ & _).
  split; [exact H1|]. split; [exact Ha|].
  split; [apply Hb; discriminate|].
  split; [reflexivity|]. split; [exact H2|]. apply Hc. reflexivity.
Defined.

(** C3 fails in both halves.  When the primary write throws while the
    primary store still holds an earlier payload of the same version,
    [load()] returns the earlier record, not the one saved.  When the
    version at load time differs from the saved one and the fallback
    cookie holds a payload of the load-time version, [load()] returns
    that payload's record, not [null]. *)
Lemma load_after_save_returns_another_record :
  let p := [("necessary", true); ("analytics", false)] in
  load "2" (save "2" p full_store)
  = Some [("necessary", true); ("analytics", true)]
  ∧ load "2" (save "1" p two_versions)
    = Some [("necessary", true); ("marketing", true)]
  ∧ ls_items (save "1" p two_versions) !! STORAGE_KEY
    = Some (Json (saved_payload "1" p two_versions)).
Proof. vm_compute. done. Qed.



(** Activating [analytics] twice on the example page. *)
Lemma activation_exactly_once_witness :
  let p := [("necessary", true); ("analytics", true)] in
  Obj.get p "analytics" = Some true
  ∧ pending "analytics" first_visit = [script_analytics]
  ∧ activated (activateScripts "analytics" first_visit)
    = [live_script script_analytics]
  ∧ activateScripts "analytics" (activateScripts "analytics" first_visit)
    = activateScripts "analytics" first_visit
  ∧ activated (applyConsent "2" p (applyConsent "2" p first_visit))
    = activated (applyConsent "2" p first_visit).
Proof.
  cbv zeta.
  destruct (activation_exactly_once "2" "analytics" first_visit)
    as (_ & H1 & _ & H2 & H3).
  destruct (H3 [("necessary", true); ("analytics", true)] eq_refl)
    as (_ & _ & _ & H4).
  split; [reflexivity|]. split; [reflexivity|].
  split; [exact H1|]. split; [exact H2|exact H4].
Defined.

(** [hasConsent] before and after a decision. *)
Lemma hasConsent_spec_witness :
  consent first_visit = None
  ∧ hasConsent "necessary" first_visit = false
  ∧ Obj.get [("necessary", true); ("analytics", false)] "analytics"
    = Some false
  ∧ hasConsent "analytics"
      (applyConsent "2" [("necessary", true); ("analytics", false)]
         first_visit) = false
  ∧ hasConsent "necessary"
      (applyConsent "2" [("necessary", true); ("analytics", false)]
         first_visit) = true.
Proof.
  destruct (hasConsent_spec "necessary" first_visit) as [H1 _].
  destruct (hasConsent_spec "analytics"
              (applyConsent "2" [("necessary", true); ("analytics", false)]
                 first_visit)) as [_ H2].
  destruct (hasConsent_spec "necessary"
              (applyConsent "2" [("necessary", true); ("analytics", false)]
                 first_visit)) as [_ H3].
  split; [reflexivity|]. split; [apply H1; reflexivity|].
  split; [reflexivity|].
  split; [eapply H2; reflexivity|eapply H3; reflexivity].
Defined.

(** [init] on a first visit. *)
Lemma init_without_record_witness :
  let options := {| opt_categories := None; opt_cookieMap := None |} in
  load "2" first_visit = None
  ∧ activated (init "2" options first_visit) = [live_script script_necessary]
  ∧ pending "analytics" (init "2" options first_visit) = [script_analytics]
  ∧ consent (init "2" options first_visit) = None.
Proof.
  cbv zeta.
  assert (H0 : load "2" first_visit = None) by reflexivity.
  destruct (init_without_record "2"
              {| opt_categories := None; opt_cookieMap := None |}
              first_visit H0) as (_ & H1 & _ & H2 & H3 & _).
  split; [exact H0|]. split; [exact H1|].
  split; [apply H2; discriminate|exact H3].
Defined.

(** [load] with a primary payload of another version. *)
Lemma load_reads_fallback_on_mismatch_witness :
  localStorage_getItem STORAGE_KEY two_versions
  = Some (Some (stored "1" [("necessary", true); ("analytics", true)]))
  ∧ document_cookie_match STORAGE_KEY (jar two_versions)
    = Some (stored "2" [("necessary", true); ("marketing", true)])
  ∧ load "2" two_versions = Some [("necessary", true); ("marketing", true)].
Proof.
  destruct (load_reads_fallback_on_mismatch "2" two_versions)
    as (_ & _ & H).
  assert (H1 : localStorage_getItem STORAGE_KEY two_versions
               = Some (Some (stored "1" [("necessary", true);
                                         ("analytics", true)])))
    by reflexivity.
  assert (H2 : document_cookie_match STORAGE_KEY (jar two_versions)
               = Some (stored "2" [("necessary", true);
                                   ("marketing", true)]))
    by reflexivity.
  split; [exact H1|]. split; [exact H2|].
  destruct (H _ H1) as [_ H3]; [discriminate|].
  apply (H3 _ H2). reflexivity.
Defined.

(** [save] into a working primary store next to an existing cookie. *)
Lemma save_primary_leaves_fallback_witness :
  let p := [("necessary", true)] in
  is_Some (localStorage_setItem STORAGE_KEY
             (JSON_stringify (saved_payload "2" p two_versions))
             two_versions)
  ∧ jar (save "2" p two_versions) = jar two_versions
  ∧ cookie_log (save "2" p two_versions) = [].
Proof.
  cbv zeta.
  assert (H1 : is_Some (localStorage_setItem STORAGE_KEY
             (JSON_stringify (saved_payload "2" [("necessary", true)]
                                two_versions)) two_versions))
    by (vm_compute; eauto).
  destruct (save_primary_leaves_fallback "2" [("necessary", true)]
              two_versions H1) as [H2 H3].
  split; [exact H1|]. split; [exact H2|exact H3].
Defined.

(** [applyConsent] with the unregistered key [social]. *)
Lemma applyConsent_activates_every_true_key_witness :
  let p := [("necessary", true); ("social", true)] in
  Obj.get p "social" = Some true
  ∧ Obj.get (CATEGORIES first_visit) "social" = None
  ∧ script_social ∈ pending "social" first_visit
  ∧ live_script script_social ∈ activated (applyConsent "2" p first_visit)
  ∧ pending "social" (applyConsent "2" p first_visit) = [].
Proof.
  cbv zeta.
  destruct (applyConsent_activates_every_true_key "2"
              [("necessary", true); ("social", true)] first_visit "social"
              eq_refl) as [H1 H2].
  assert (H0 : script_social ∈ pending "social" first_visit)
    by (vm_compute; apply list_elem_of_here).
  split; [reflexivity|]. split; [reflexivity|]. split; [exact H0|].
  split; [exact (H1 _ H0)|exact H2].
Defined.

(** * Further properties of the script *)

(** ** Objects, again *)

Lemma get_foldl_set {V} (s o : list (string * V)) k :
  Obj.wf s →
  Obj.get (foldl (fun o kv => Obj.set o kv.1 kv.2) o s) k
  = match Obj.get s k with
    | Some x => Some x
    | None => Obj.get o k
    end.
Proof.
  unfold Obj.wf, Obj.keys. revert o.
  induction s as [|[k0 v0] s IH]; intros o Hwf; [done|].
  apply NoDup_cons in Hwf as [Hk0 Hwf]. simpl. rewrite IH by done.
  case_bool_decide as Hk; subst.
  - rewrite ObjFacts.get_None by done. apply ObjFacts.get_set_eq.
  - by rewrite ObjFacts.get_set_ne.
Qed.

Lemma keys_set_present {V} (o : list (string * V)) k v :
  k ∈ Obj.keys o → Obj.keys (Obj.set o k v) = Obj.keys o.
Proof.
  unfold Obj.keys. induction o as [|[k0 v0] o IH]; intros Hin.
  - by apply elem_of_nil in Hin.
  - simpl. case_bool_decide as Hk; [done|]. simpl. f_equal. apply IH.
    simpl in Hin. apply elem_of_cons in Hin as [->|Hin]; done.
Qed.

Lemma keys_foldl_set_present {V} (s o : list (string * V)) :
  (∀ k, k ∈ Obj.keys s → k ∈ Obj.keys o) →
  Obj.keys (foldl (fun o kv => Obj.set o kv.1 kv.2) o s) = Obj.keys o.
Proof.
  revert o. induction s as [|[k0 v0] s IH]; intros o Hs; [done|].
  simpl. rewrite IH.
  - apply keys_set_present, Hs. apply list_elem_of_here.
  - intros k Hk. rewrite keys_set_present.
    + apply Hs. by apply list_elem_of_further.
    + apply Hs. apply list_elem_of_here.
Qed.

Lemma get_elem_wf {V} (o : list (string * V)) k x :
  Obj.wf o → (k, x) ∈ o → Obj.get o k = Some x.
Proof.
  unfold Obj.wf, Obj.keys. induction o as [|[k0 v0] o IH]; intros Hwf Hin.
  - by apply elem_of_nil in Hin.
  - apply NoDup_cons in Hwf as [Hk0 Hwf]. simpl.
    apply elem_of_cons in Hin as [[= -> ->]|Hin].
    + by rewrite bool_decide_true.
    + rewrite bool_decide_false; [by apply IH|].
      intros ->. apply Hk0. by apply (list_elem_of_fmap_2 fst) in Hin.
Qed.

(** ** The live script *)








(** ** Applying a record *)

(** A field of the world in which [applyConsent] saves. *)
Ltac applied_field :=
  unfold applied; rewrite activateAllowed_page; simpl;
  rewrite purged_eq, cookie_writes_eq; done.

Lemma applied_consent p w : consent (applied p w) = Some p.
Proof. unfold applied. by rewrite activateAllowed_page. Qed.

Lemma applied_events p w : events (applied p w) = events w.
Proof. applied_field. Qed.

Lemma applied_clock p w : clock (applied p w) = clock w.
Proof. applied_field. Qed.

Lemma applied_ls p w :
  ls_available (applied p w) = ls_available w
  ∧ ls_quota_full (applied p w) = ls_quota_full w
  ∧ ls_items (applied p w) = ls_items w.
Proof. repeat split; applied_field. Qed.

Lemma applied_cookies p w :
  jar (applied p w) = jar (purged p w)
  ∧ cookie_log (applied p w) = cookie_log (purged p w).
Proof. unfold applied. by rewrite activateAllowed_page. Qed.

Lemma applyConsent_applied v p w :
  applyConsent v p w
  = with_events (events (save v p (applied p w)) ++ [p])
                (save v p (applied p w)).
Proof. done. Qed.

Lemma applyConsent_events v p w :
  events (applyConsent v p w) = events w ++ [p].
Proof.
  rewrite applyConsent_applied. simpl.
  by rewrite save_events, applied_events.
Qed.

Lemma save_applied_primary v p w :
  ls_available w = true → ls_quota_full w = false →
  save v p (applied p w)
  = with_ls_items (<[STORAGE_KEY := Json (saved_payload v p w)]> (ls_items w))
                  (applied p w).
Proof.
  intros Ha Hq. unfold save, localStorage_setItem.
  destruct (applied_ls p w) as (-> & -> & ->).
  by rewrite Ha, Hq, applied_clock.
Qed.

Lemma applyConsent_stored v p w :
  ls_available w = true → ls_quota_full w = false →
  ls_available (applyConsent v p w) = true
  ∧ ls_items (applyConsent v p w) !! STORAGE_KEY
    = Some (Json (saved_payload v p w))
  ∧ jar (applyConsent v p w) = jar (purged p w)
  ∧ cookie_log (applyConsent v p w) = cookie_log (purged p w).
Proof.
  intros Ha Hq. rewrite applyConsent_applied, save_applied_primary by done.
  simpl. destruct (applied_ls p w) as (-> & _ & _).
  destruct (applied_cookies p w) as [-> ->].
  by rewrite lookup_insert_eq.
Qed.

(** X3: [applyConsent] installs the record, announces it in exactly one
    [cc:consent] event that carries the record, and, when the primary
    store takes the write, leaves a payload of the compiled version from
    which [load()] returns the record. *)
Theorem applyConsent_persists_and_notifies v p w :
  consent (applyConsent v p w) = Some p
  ∧ events (applyConsent v p w) = events w ++ [p]
  ∧ (ls_available w = true → ls_quota_full w = false →
     ls_items (applyConsent v p w) !! STORAGE_KEY
     = Some (Json {| version := v; prefs := p; ts := clock w |})
     ∧ load v (applyConsent v p w) = Some p).
Proof.
  split; [apply applyConsent_consent|].
  split; [apply applyConsent_events|].
  intros Ha Hq.
  destruct (applyConsent_stored v p w Ha Hq) as (Ha' & Hi & _).
  split; [done|]. unfold load.
  rewrite (load_primary_hit _ _ _ Ha' Hi). simpl.
  by rewrite bool_decide_true.
Qed.

Lemma filter_none {A} (P : A → Prop) `{∀ x, Decision (P x)} (l : list A) :
  (∀ x, x ∈ l → ¬ P x) → filter P l = [].
Proof.
  intros Hl. apply elem_of_nil_inv. intros x Hx.
  apply list_elem_of_filter in Hx as [HP Hin]. by apply (Hl x).
Qed.

Lemma purged_nothing p w :
  (∀ old k, consent w = Some old → k ∈ Obj.keys (CATEGORIES w) →
            Obj.get old k = Some true → Obj.get p k = Some true) →
  purged p w = w.
Proof.
  intros Hkeep. unfold purged. destruct (consent w) as [old|]; [|done].
  rewrite revoke_eq. unfold revoked. rewrite filter_none; [done|].
  intros k Hk Hc. apply andb_prop in Hc as [Ho Hp].
  assert (Obj.get old k = Some true) as Hold.
  { destruct (Obj.get old k) as [[]|]; done. }
  rewrite (Hkeep old k eq_refl Hk Hold) in Hp. done.
Qed.

Lemma save_cookies_only_stores v p w w' :
  ls_available w' = ls_available w → ls_quota_full w' = ls_quota_full w →
  clock w' = clock w → jar w' = jar w → cookie_log w' = cookie_log w →
  jar (save v p w') = jar (save v p w)
  ∧ cookie_log (save v p w') = cookie_log (save v p w).
Proof.
  intros Ha Hq Hc Hj Hl. unfold save, localStorage_setItem.
  rewrite Ha, Hq, Hc.
  destruct (ls_available w && negb (ls_quota_full w)); simpl;
    by rewrite Hj, Hl, ?Hc.
Qed.

Lemma applyConsent_no_revocation v p w :
  purged p w = w →
  jar (applyConsent v p w) = jar (save v p w)
  ∧ cookie_log (applyConsent v p w) = cookie_log (save v p w).
Proof.
  intros Hp. rewrite applyConsent_applied. simpl.
  destruct (applied_ls p w) as (Ha & Hq & _).
  destruct (applied_cookies p w) as [Hj Hl]. rewrite Hp in Hj, Hl.
  apply save_cookies_only_stores; auto using applied_clock.
Qed.

(** X4: when no key of the registry goes from [true] in the current
    record to not [true] in the applied one (a first decision, the same
    record again, a record that only allows more), [applyConsent]
    deletes no cookie: what it does to the cookies is what [save] alone
    does, which is nothing when the primary store takes the write. *)
Theorem applyConsent_without_revocation v p w :
  (∀ old k, consent w = Some old → k ∈ Obj.keys (CATEGORIES w) →
            Obj.get old k = Some true → Obj.get p k = Some true) →
  jar (applyConsent v p w) = jar (save v p w)
  ∧ cookie_log (applyConsent v p w) = cookie_log (save v p w)
  ∧ (ls_available w = true → ls_quota_full w = false →
     jar (applyConsent v p w) = jar w
     ∧ cookie_log (applyConsent v p w) = cookie_log w).
Proof.
  intros Hkeep. pose proof (purged_nothing p w Hkeep) as Hp.
  destruct (applyConsent_no_revocation v p w Hp) as [Hj Hl].
  split; [done|]. split; [done|]. intros Ha Hq.
  rewrite Hj, Hl. unfold save, localStorage_setItem. by rewrite Ha, Hq.
Qed.

Lemma pending_activateAllowed_false c (p : Prefs) w :
  (c, true) ∉ p → pending c (activateAllowed p w) = pending c w.
Proof.
  revert w. induction p as [|[c' b] p IH]; intros w Hnin; [done|].
  apply not_elem_of_cons in Hnin as [Hne Hnin].
  rewrite activateAllowed_cons. simpl. rewrite IH by done.
  destruct b; [|done]. apply pending_activateScripts_other.
  intros ->. by apply Hne.
Qed.

Lemma pending_activateScripts_subseteq c c' w :
  pending c (activateScripts c' w) ⊆ pending c w.
Proof.
  destruct (decide (c = c')) as [->|Hne].
  - rewrite pending_activateScripts_same. apply list_subseteq_nil.
  - by rewrite pending_activateScripts_other.
Qed.

(** The scripts that the loop inserts are live counterparts of
    declarations that were pending, before the loop, for a key with an
    entry [true]. *)
Lemma activated_activateAllowed_sources (p : Prefs) w :
  ∃ srcs, activated (activateAllowed p w)
          = activated w ++ map live_script srcs
          ∧ Forall (fun el => ∃ c, (c, true) ∈ p ∧ el ∈ pending c w) srcs.
Proof.
  revert w. induction p as [|[c' b] p IH]; intros w.
  - exists []. split; [by rewrite app_nil_r|done].
  - rewrite activateAllowed_cons. simpl. destruct b.
    + destruct (IH (activateScripts c' w)) as (srcs & Ha & Hs).
      exists (pending c' w ++ srcs). split.
      * rewrite Ha, activateScripts_eq. simpl.
        by rewrite map_app, <- app_assoc.
      * apply Forall_app. split.
        -- apply Forall_forall. intros el Hel. exists c'.
           split; [apply list_elem_of_here|done].
        -- eapply Forall_impl; [exact Hs|]. intros el (c & Hc & Hel).
           exists c. split; [by apply list_elem_of_further|].
           by apply (pending_activateScripts_subseteq c c' w).
    + destruct (IH w) as (srcs & Ha & Hs). exists srcs. split; [done|].
      eapply Forall_impl; [exact Hs|]. intros el (c & Hc & Hel).
      exists c. split; [by apply list_elem_of_further|done].
Qed.

(** X2: [applyConsent] activates nothing but declarations of keys that
    are [true] in the applied record: the declarations of any other key
    stay pending, and every script inserted is the live counterpart of a
    declaration that was pending for a key with value [true]. *)
Theorem applyConsent_activates_only_true_keys v p w :
  Obj.wf p →
  (∀ c, Obj.get p c ≠ Some true →
        pending c (applyConsent v p w) = pending c w)
  ∧ ∃ srcs, activated (applyConsent v p w)
            = activated w ++ map live_script srcs
            ∧ Forall (fun el => ∃ c, Obj.get p c = Some true
                                ∧ el ∈ pending c w) srcs.
Proof.
  intros Hwf. split.
  - intros c Hc. rewrite applyConsent_pending.
    apply pending_activateAllowed_false. intros Hin.
    by apply Hc, get_elem_wf.
  - destruct (applyConsent_page v p w) as [_ ->].
    destruct (activated_activateAllowed_sources p w) as (srcs & Ha & Hs).
    exists srcs. split; [done|].
    eapply Forall_impl; [exact Hs|]. intros el (c & Hc & Hel).
    exists c. split; [by apply get_elem_wf|done].
Qed.

(** ** The cookie purge *)

(** X5: [deleteCookies] assigns to [document.cookie] three times per
    cookie name mapped to the category, name by name and scope by scope,
    each time with an empty value and the epoch as expiry; it touches
    nothing but the cookies, and does nothing at all for a category
    without an entry in [COOKIE_MAP]. *)
Theorem deleteCookies_attempts category w :
  let names := match COOKIE_MAP w !! category with
               | Some names => names
               | None => []
               end in
  let writes := names ≫= (fun name =>
                            expired_cookie name <$> tails (hostname w)) in
  cookie_log (deleteCookies category w) = cookie_log w ++ writes
  ∧ length writes = (3 * length names)%nat
  ∧ deleteCookies category w
    = with_cookies (jar (deleteCookies category w))
                   (cookie_log (deleteCookies category w)) w
  ∧ (COOKIE_MAP w !! category = None → deleteCookies category w = w).
Proof.
  cbv zeta. fold (cookie_names w category). fold (purge_writes w category).
  rewrite deleteCookies_eq, cookie_writes_eq. simpl.
  split; [done|]. split; [|split; [done|]].
  - unfold purge_writes. induction (cookie_names w category) as [|n l IH];
      [done|].
    rewrite bind_cons, length_app, IH. simpl. lia.
  - intros Hnone. unfold purge_writes, cookie_names. rewrite Hnone. simpl.
    by rewrite app_nil_r, with_cookies_id.
Qed.

Lemma elem_of_foldl_evict now (l : list CookieWrite) j x :
  Forall (fun cw => cw_expires cw < now) l →
  x ∈ foldl (jar_after now) j l
  ↔ x ∈ j ∧ ∀ cw, cw ∈ l → same_cookie x (cookie_of cw) = false.
Proof.
  intros Hl. revert j. induction Hl as [|cw l Hcw Hl IH]; intros j.
  - simpl. split; [|by intros [? _]]. intros Hx. split; [done|].
    intros cw Hcw. by apply elem_of_nil in Hcw.
  - simpl. rewrite IH. unfold jar_after at 1.
    assert ((cw_expires cw <? now) = true) as -> by (by apply Z.ltb_lt).
    unfold jar_evict. rewrite list_elem_of_filter. split.
    + intros [[Hs Hx] Hall]. split; [done|]. intros cw' Hcw'.
      apply elem_of_cons in Hcw' as [->|Hcw']; [done|by apply Hall].
    + intros [Hx Hall]. split; [split; [|done]|].
      * apply Hall, list_elem_of_here.
      * intros cw' Hcw'. by apply Hall, list_elem_of_further.
Qed.

Lemma purge_writes_expired w category now :
  0 < now → Forall (fun cw => cw_expires cw < now) (purge_writes w category).
Proof.
  intros Hnow. apply Forall_forall. intros cw Hcw.
  unfold purge_writes in Hcw.
  apply list_elem_of_bind in Hcw as (name & Hcw & _).
  apply list_elem_of_fmap in Hcw as (tail & -> & _). done.
Qed.

Lemma elem_of_purge_writes w category cw :
  cw ∈ purge_writes w category
  ↔ ∃ name tail, cw = expired_cookie name tail
                 ∧ name ∈ cookie_names w category
                 ∧ tail ∈ tails (hostname w).
Proof.
  unfold purge_writes. rewrite list_elem_of_bind. split.
  - intros (name & Hcw & Hname).
    apply list_elem_of_fmap in Hcw as (tail & -> & Htail). eauto.
  - intros (name & tail & -> & Hname & Htail). exists name.
    split; [|done]. by apply list_elem_of_fmap_2.
Qed.

(** X6: what the purge does to the jar.  No cookie is added.  A cookie
    whose name is mapped to the category is gone when it sits at path
    [/] and is host-only or bound to the host name.  A cookie survives
    when its name is not mapped to the category, when its path is not
    [/], or when it is bound to another domain. *)
Theorem deleteCookies_jar category w :
  0 < clock w →
  let w' := deleteCookies category w in
  (∀ x, x ∈ jar w' → x ∈ jar w)
  ∧ (∀ x, x ∈ jar w' → c_name x ∈ cookie_names w category →
          c_path x = "/" →
          c_domain x = None ∨ c_domain x = Some (hostname w) → False)
  ∧ (∀ x, x ∈ jar w →
          c_name x ∉ cookie_names w category
          ∨ c_path x ≠ "/"
          ∨ (c_domain x ≠ None
             ∧ c_domain x ≠ Some (hostname w)
             ∧ c_domain x ≠ Some (strip_dot (hostname w))) →
          x ∈ jar w').
Proof.
  intros Hclock. cbv zeta.
  assert (Hjar : ∀ x, x ∈ jar (deleteCookies category w)
            ↔ x ∈ jar w
              ∧ ∀ cw, cw ∈ purge_writes w category →
                      same_cookie x (cookie_of cw) = false).
  { intros x. rewrite deleteCookies_eq, cookie_writes_eq. simpl.
    apply elem_of_foldl_evict. by apply purge_writes_expired. }
  split; [|split].
  - intros x Hx. by apply Hjar in Hx as [? _].
  - intros x Hx Hname Hpath Hdom. apply Hjar in Hx as [_ Hall].
    assert (∃ tail, tail ∈ tails (hostname w)
                    ∧ same_cookie x (cookie_of
                                       (expired_cookie (c_name x) tail))
                      = true) as (tail & Htail & Hsame).
    { destruct Hdom as [Hd|Hd].
      - exists ("/", None). split; [apply list_elem_of_here|].
        apply same_cookie_true. by rewrite Hd, Hpath.
      - exists ("/", Some ("." +:+ hostname w)).
        split; [do 2 apply list_elem_of_further; apply list_elem_of_here|].
        apply same_cookie_true. by rewrite Hd, Hpath. }
    rewrite Hall in Hsame; [done|].
    apply elem_of_purge_writes. eauto.
  - intros x Hx Hkeep. apply Hjar. split; [done|]. intros cw Hcw.
    apply elem_of_purge_writes in Hcw as (name & tail & -> & Hname & Htail).
    apply not_true_is_false. intros Hsame.
    apply same_cookie_true in Hsame as (Hn & Hd & Hp). simpl in *.
    destruct Hkeep as [Hk|[Hk|(Hk1 & Hk2 & Hk3)]].
    + apply Hk. by rewrite Hn.
    + apply Hk. rewrite Hp. unfold tails in Htail.
      repeat (apply elem_of_cons in Htail as [->|Htail]); try done.
      by apply elem_of_nil in Htail.
    + unfold tails in Htail.
      repeat (apply elem_of_cons in Htail as [->|Htail]); simpl in Hd;
        try done.
      by apply elem_of_nil in Htail.
Qed.

(** ** Accepting and declining everything *)

Lemma defaultPrefs_get w k :
  Obj.wf (CATEGORIES w) →
  Obj.get (defaultPrefs w) k
  = (fun d => if required d then true else default d)
      <$> Obj.get (CATEGORIES w) k.
Proof.
  intros Hwf. unfold defaultPrefs, Obj.entries.
  rewrite ObjFacts.fromEntries_wf.
  - apply (ObjFacts.get_fmap
             (fun d => if required d then true else default d)).
  - unfold Obj.wf.
    by rewrite (ObjFacts.keys_fmap
                  (fun d => if required d then true else default d)).
Qed.

Lemma defaultPrefs_keys w :
  Obj.wf (CATEGORIES w) → Obj.keys (defaultPrefs w) = Obj.keys (CATEGORIES w).
Proof.
  intros Hwf. unfold defaultPrefs, Obj.entries.
  rewrite ObjFacts.fromEntries_wf.
  - apply (ObjFacts.keys_fmap
             (fun d => if required d then true else default d)).
  - unfold Obj.wf.
    by rewrite (ObjFacts.keys_fmap
                  (fun d => if required d then true else default d)).
Qed.

Lemma all_true_eq (ks : list string) :
  NoDup ks →
  Obj.fromEntries (map (fun k => (k, true)) ks) = map (fun k => (k, true)) ks.
Proof.
  intros Hnd. apply ObjFacts.fromEntries_wf. unfold Obj.wf.
  by rewrite keys_keys_true.
Qed.

Lemma get_all_true_None (ks : list string) k :
  k ∉ ks → Obj.get (map (fun k => (k, true)) ks) k = None.
Proof. intros Hk. apply ObjFacts.get_None. by rewrite keys_keys_true. Qed.

(** X9: after [acceptAll] the current record has exactly the keys of
    the registry, all [true]: [hasConsent] holds for every registered
    key, no declaration of a registered key is left pending, those of
    other keys are as they were, and no cookie has been deleted. *)
Theorem acceptAll_allows_registry v w :
  Obj.wf (CATEGORIES w) →
  let w' := acceptAll v w in
  consent w' = Some (map (fun k => (k, true)) (Obj.keys (CATEGORIES w)))
  ∧ (∀ k, k ∈ Obj.keys (CATEGORIES w) →
          hasConsent k w' = true ∧ pending k w' = [])
  ∧ (∀ k, k ∉ Obj.keys (CATEGORIES w) → pending k w' = pending k w)
  ∧ jar w' = jar (save v (map (fun k => (k, true))
                              (Obj.keys (CATEGORIES w))) w).
Proof.
  intros Hwf. cbv zeta. unfold acceptAll. rewrite all_true_eq by done.
  set (p := map (fun k => (k, true)) (Obj.keys (CATEGORIES w))).
  split; [apply applyConsent_consent|]. split; [|split].
  - intros k Hk. unfold hasConsent. rewrite applyConsent_consent.
    subst p. rewrite get_keys_true by done. split; [done|].
    rewrite applyConsent_pending. apply pending_activateAllowed_true.
    by apply (list_elem_of_fmap_2 (fun k => (k, true))).
  - intros k Hk. rewrite applyConsent_pending.
    apply pending_activateAllowed_false.
    intros Hin. apply list_elem_of_fmap in Hin as (k' & [= ->] & Hk').
    done.
  - apply applyConsent_no_revocation, purged_nothing.
    intros old k _ Hk _. subst p. by apply get_keys_true.
Qed.

(** X10: [rejectAll] installs the default record, whose keys are those
    of the registry; afterwards a registered category is consented to
    exactly when its definition is required or on by default. *)
Theorem rejectAll_keeps_defaults v w :
  Obj.wf (CATEGORIES w) →
  consent (rejectAll v w) = Some (defaultPrefs w)
  ∧ Obj.keys (defaultPrefs w) = Obj.keys (CATEGORIES w)
  ∧ ∀ k d, Obj.get (CATEGORIES w) k = Some d →
           hasConsent k (rejectAll v w) = required d || default d.
Proof.
  intros Hwf. unfold rejectAll. split; [apply applyConsent_consent|].
  split; [by apply defaultPrefs_keys|]. intros k d Hk.
  unfold hasConsent. rewrite applyConsent_consent.
  rewrite defaultPrefs_get, Hk by done. simpl. by destruct (required d).
Qed.

(** ** Initialisation *)

Lemma configure_eq options w :
  configure options w
  = with_config (CATEGORIES (configure options w))
                (COOKIE_MAP (configure options w)) w.
Proof.
  unfold configure.
  destruct (opt_categories options), (opt_cookieMap options); simpl;
    try done; by destruct w.
Qed.

Lemma load_configure v options w :
  load v (configure options w) = load v w.
Proof. by rewrite configure_eq. Qed.

Lemma init_configure v options w :
  init v options w
  = match load v w with
    | Some stored =>
        activateAllowed stored
          (with_consent (Some stored) (configure options w))
    | None =>
        let w1 := activateScripts "necessary" (configure options w) in
        with_banner (if loading w1 then BannerDeferred else BannerShown) w1
    end.
Proof.
  rewrite <- (load_configure v options w). done.
Qed.

Lemma wf_set {V} (o : list (string * V)) k x :
  Obj.wf o → Obj.wf (Obj.set o k x).
Proof.
  unfold Obj.wf. intros Hwf.
  destruct (decide (k ∈ Obj.keys o)) as [Hin|Hnin].
  - by rewrite keys_set_present.
  - rewrite ObjFacts.set_fresh by done. unfold Obj.keys in *.
    rewrite fmap_app. apply NoDup_app. split; [done|]. split.
    + intros k' Hk' Hk''. apply list_elem_of_singleton in Hk''.
      simpl in Hk''. by subst.
    + apply NoDup_singleton.
Qed.

Lemma wf_assign {V} (t s : list (string * V)) :
  Obj.wf t → Obj.wf (Obj.assign t s).
Proof.
  unfold Obj.assign, Obj.entries. revert t.
  induction s as [|[k x] s IH]; intros t Hwf; [done|].
  simpl. by apply IH, wf_set.
Qed.

Lemma filter_iff_elem {A} (P Q : A → Prop)
  `{!∀ x, Decision (P x), !∀ x, Decision (Q x)} (l : list A) :
  (∀ x, x ∈ l → P x ↔ Q x) → filter P l = filter Q l.
Proof.
  induction l as [|a l IH]; intros Hl; [done|].
  assert (filter P l = filter Q l) as Hrec.
  { apply IH. intros y Hy. by apply Hl, list_elem_of_further. }
  pose proof (Hl a (list_elem_of_here _ _)) as Ha.
  destruct (decide (P a)).
  - rewrite filter_cons_True, (filter_cons_True Q) by tauto. by rewrite Hrec.
  - rewrite filter_cons_False, (filter_cons_False Q) by tauto. done.
Qed.

Lemma keys_assign {V} (t s : list (string * V)) :
  Obj.wf s →
  Obj.keys (Obj.assign t s)
  = Obj.keys t ++ filter (fun k => k ∉ Obj.keys t) (Obj.keys s).
Proof.
  unfold Obj.assign, Obj.entries, Obj.wf. revert t.
  induction s as [|[k x] s IH]; intros t Hwf.
  - by rewrite app_nil_r.
  - change (Obj.keys ((k, x) :: s)) with (k :: Obj.keys s) in *.
    apply NoDup_cons in Hwf as [Hk Hwf].
    cbn [foldl fst snd]. rewrite IH by done.
    destruct (decide (k ∈ Obj.keys t)) as [Hin|Hnin].
    + rewrite filter_cons_False by (by intros H; apply H).
      by rewrite keys_set_present.
    + rewrite filter_cons_True by done.
      rewrite ObjFacts.set_fresh by done.
      change (Obj.keys (t ++ [(k, x)])) with ((t ++ [(k, x)]).*1).
      rewrite fmap_app, <- app_assoc. simpl. do 2 f_equal.
      apply filter_iff_elem. intros k' Hk'.
      rewrite elem_of_app, list_elem_of_singleton.
      unfold Obj.keys in *. split; [tauto|].
      intros Hn [Ht|Hkk]; [tauto|]. by subst.
Qed.

(** X8: [init] merges the caller's categories and cookie names over
    those of the script.  A caller's definition replaces the one of the
    same key and is otherwise added; the keys the registry had keep their
    place and the new ones follow in the caller's order; the keys stay
    distinct.  A caller's cookie list replaces the list of its key. *)
Theorem init_merges_configuration v options w :
  let w' := init v options w in
  (∀ c, opt_categories options = Some c →
        CATEGORIES w' = Obj.assign (CATEGORIES w) c
        ∧ (Obj.wf (CATEGORIES w) → Obj.wf (CATEGORIES w'))
        ∧ (Obj.wf c →
           Obj.keys (CATEGORIES w')
           = Obj.keys (CATEGORIES w)
             ++ filter (fun k => k ∉ Obj.keys (CATEGORIES w)) (Obj.keys c))
        ∧ (Obj.wf c →
           ∀ k, Obj.get (CATEGORIES w') k
                = match Obj.get c k with
                  | Some d => Some d
                  | None => Obj.get (CATEGORIES w) k
                  end))
  ∧ (opt_categories options = None → CATEGORIES w' = CATEGORIES w)
  ∧ (∀ m, opt_cookieMap options = Some m →
          ∀ k, COOKIE_MAP w' !! k
               = match m !! k with
                 | Some names => Some names
                 | None => COOKIE_MAP w !! k
                 end)
  ∧ (opt_cookieMap options = None → COOKIE_MAP w' = COOKIE_MAP w).
Proof.
  cbv zeta.
  assert (Hcfg : CATEGORIES (init v options w)
                 = CATEGORIES (configure options w)
                 ∧ COOKIE_MAP (init v options w)
                   = COOKIE_MAP (configure options w)).
  { rewrite init_configure. destruct (load v w) as [stored|].
    - by rewrite activateAllowed_page.
    - cbv zeta. by rewrite activateScripts_eq. }
  destruct Hcfg as [-> ->]. unfold configure.
  split; [|split; [|split]].
  - intros c ->. destruct (opt_cookieMap options); simpl.
    all: split; [done|]; split; [apply wf_assign|];
      split; [apply keys_assign|];
      intros Hwf k; apply (get_foldl_set c (CATEGORIES w) k Hwf).
  - intros ->. by destruct (opt_cookieMap options).
  - intros m -> k. destruct (opt_categories options); simpl.
    all: rewrite lookup_union; by destruct (m !! k), (COOKIE_MAP w !! k).
  - intros ->. by destruct (opt_categories options).
Qed.


(** X15: on a first visit [init] asks for the banner, at once when the
    document is ready and on [DOMContentLoaded] while it is loading, and
    writes nothing to the stores; a second [init] (the manual call after
    the automatic one) activates nothing more. *)
Theorem init_first_visit_prompt v options options' w :
  load v w = None →
  let w' := init v options w in
  banner w' = (if loading w then BannerDeferred else BannerShown)
  ∧ ls_items w' = ls_items w ∧ jar w' = jar w
  ∧ cookie_log w' = cookie_log w
  ∧ load v w' = None
  ∧ dom (init v options' w') = dom w'
  ∧ activated (init v options' w') = activated w'.
Proof.
  intros Hload. cbv zeta.
  assert (Hw' : init v options w
                = with_banner (if loading w then BannerDeferred
                               else BannerShown)
                    (activateScripts "necessary" (configure options w))).
  { rewrite init_configure, Hload. cbv zeta. f_equal.
    rewrite activateScripts_eq. simpl. by rewrite configure_eq. }
  assert (Hload' : load v (init v options w) = None).
  { rewrite Hw', activateScripts_eq, configure_eq. exact Hload. }
  rewrite (init_configure v options' (init v options w)), Hload'.
  cbv zeta.
  assert (Hnil : pending "necessary" (configure options' (init v options w))
                 = []).
  { transitivity (pending "necessary"
                    (activateScripts "necessary" (configure options w))).
    - unfold pending. rewrite (configure_eq options'). simpl.
      by rewrite Hw'.
    - apply pending_activateScripts_same. }
  rewrite (activateScripts_nothing_pending _ _ Hnil). simpl.
  rewrite (configure_eq options'). simpl.
  rewrite Hw', activateScripts_eq, configure_eq. done.
Qed.


(** ** From one session to the next *)

Lemma page_load_eq v html still_loading w :
  page_load v html still_loading w
  = init v {| opt_categories := None; opt_cookieMap := None |}
         (fresh_page html still_loading w).
Proof. done. Qed.

Lemma load_fresh_page v html still_loading w :
  load v (fresh_page html still_loading w) = load v w.
Proof. done. Qed.


(** X12: a bumped version asks again.  After a decision saved under one
    version, a page load under another version, with no fallback payload
    of that version, starts Undecided: no record, consent to nothing,
    the banner asked for, the [necessary] declarations alone activated;
    the old payload is still in the primary store. *)
Theorem version_bump_asks_again v v' p w html still_loading :
  v' ≠ v →
  ls_available w = true → ls_quota_full w = false →
  load_fallback v' (applyConsent v p w) = None →
  let w' := page_load v' html still_loading (applyConsent v p w) in
  consent w' = None
  ∧ (∀ c, hasConsent c w' = false)
  ∧ banner w' = (if still_loading then BannerDeferred else BannerShown)
  ∧ activated w'
    = map live_script
          (filter (fun el => matches_selector "necessary" el = true) html)
  ∧ ls_items w' !! STORAGE_KEY
    = Some (Json {| version := v; prefs := p; ts := clock w |}).
Proof.
  intros Hne Ha Hq Hfall. cbv zeta.
  destruct (applyConsent_stored v p w Ha Hq) as (Ha' & Hi & _).
  assert (Hload : load v' (applyConsent v p w) = None).
  { unfold load. rewrite (load_primary_hit _ _ _ Ha' Hi). simpl.
    by rewrite bool_decide_false. }
  rewrite page_load_eq, init_configure, load_fresh_page, Hload.
  cbv zeta. unfold configure. simpl. rewrite activateScripts_eq. simpl.
  repeat split. exact Hi.
Qed.

(** X16: [load()] never returns a record of another version: a record
    it returns is the [prefs] of a payload of the compiled version that
    sits in the primary store or in the first [cookie_consent] cookie. *)
Theorem load_returns_compiled_version v w p :
  load v w = Some p →
  ∃ d, version d = v ∧ prefs d = p
       ∧ ((ls_available w = true
           ∧ ls_items w !! STORAGE_KEY = Some (Json d))
          ∨ document_cookie_match STORAGE_KEY (jar w) = Some (Json d)).
Proof.
  unfold load. destruct (load_primary v w) as [p'|] eqn:Hprim.
  - intros [= ->]. unfold load_primary, localStorage_getItem in Hprim.
    destruct (ls_available w); [|done].
    destruct (ls_items w !! STORAGE_KEY) as [[s|d]|]; try done.
    + by destruct (text_truthy (Plain s)).
    + simpl in Hprim. case_bool_decide; [|done].
      injection Hprim as <-. exists d. auto.
  - unfold load_fallback.
    destruct (document_cookie_match STORAGE_KEY (jar w)) as [[s|d]|];
      try done.
    simpl. case_bool_decide; [|done]. intros [= <-]. exists d. auto.
Qed.

Lemma jar_own_store name c j :
  c_domain c = None → c_path c = "/" →
  jar_own name j → jar_own name (jar_store c j).
Proof.
  intros Hd Hp. induction j as [|c' j IH]; intros Hown x Hx Hn.
  - apply list_elem_of_singleton in Hx as ->. done.
  - simpl in Hx. destruct (same_cookie c' c).
    + apply elem_of_cons in Hx as [->|Hx]; [done|].
      apply Hown; [by apply list_elem_of_further|done].
    + apply elem_of_cons in Hx as [->|Hx].
      * apply Hown; [apply list_elem_of_here|done].
      * apply IH; [|done|done]. intros y Hy.
        apply Hown. by apply list_elem_of_further.
Qed.

(** X17: the last [save] wins.  After two saves under one version
    [load()] returns the second record, whether both went to the primary
    store or both to the fallback cookie (with no payload of the version
    in the primary store and no foreign [cookie_consent] cookie). *)
Theorem load_after_two_saves v p1 p2 w :
  (ls_available w = true → ls_quota_full w = false →
   load v (save v p2 (save v p1 w)) = Some p2)
  ∧ (ls_available w && negb (ls_quota_full w) = false →
     load_primary v w = None → jar_own STORAGE_KEY (jar w) →
     load v (save v p2 (save v p1 w)) = Some p2).
Proof.
  split.
  - intros Ha Hq.
    assert (Hs : ∀ p w0, ls_available w0 = true →
              ls_quota_full w0 = false →
              save v p w0
              = with_ls_items (<[STORAGE_KEY := Json (saved_payload v p w0)]>
                                 (ls_items w0)) w0).
    { intros p w0 Ha0 Hq0. unfold save, localStorage_setItem.
      by rewrite Ha0, Hq0. }
    rewrite (Hs p1 w Ha Hq). rewrite Hs by done.
    unfold load.
    rewrite (load_primary_hit v _ (saved_payload v p2
               (with_ls_items
                  (<[STORAGE_KEY := Json (saved_payload v p1 w)]> (ls_items w))
                  w))); [|done|simpl; apply lookup_insert_eq].
    simpl. by rewrite bool_decide_true.
  - intros Hfail Hprim Hown.
    assert (Hnone : ∀ p w0,
              ls_available w0 && negb (ls_quota_full w0) = false →
              localStorage_setItem STORAGE_KEY
                (JSON_stringify (saved_payload v p w0)) w0 = None).
    { intros p w0 H0. unfold localStorage_setItem. by rewrite H0. }
    destruct (save_fallback v p1 w (Hnone _ _ Hfail) Hown) as [Hp1 Hm1].
    assert (Hfail1 : ls_available (save v p1 w)
                     && negb (ls_quota_full (save v p1 w)) = false).
    { unfold save, localStorage_setItem. by rewrite Hfail. }
    assert (Hown1 : jar_own STORAGE_KEY (jar (save v p1 w))).
    { unfold save, localStorage_setItem. rewrite Hfail. simpl.
      destruct (_ <? _); [|by apply jar_own_store].
      intros x Hx. apply Hown. unfold jar_evict in Hx.
      by apply list_elem_of_filter in Hx as [_ ?]. }
    destruct (save_fallback v p2 _ (Hnone _ _ Hfail1) Hown1) as [Hp2 Hm2].
    unfold load. rewrite Hp2, Hp1, Hprim.
    rewrite (load_fallback_hit _ _ _ Hm2). simpl.
    by rewrite bool_decide_true.
Qed.

(** ** The preferences modal *)

Lemma openModal_inputs_cats w :
  data_cat <$> openModal_inputs w = Obj.keys (CATEGORIES w).
Proof.
  unfold openModal_inputs, Obj.entries, Obj.keys.
  induction (CATEGORIES w) as [|kv l IH]; [done|]. simpl. by f_equal.
Qed.

Lemma user_edit_refl rendered : user_edit rendered rendered.
Proof. unfold user_edit. induction rendered; by constructor. Qed.

Lemma user_edit_cats rendered inputs :
  user_edit rendered inputs → data_cat <$> inputs = data_cat <$> rendered.
Proof.
  induction 1 as [|a b r i (Hc & _ & _) _ IH]; [done|].
  rewrite !fmap_cons. by rewrite Hc, IH.
Qed.

Lemma user_edit_elem rendered inputs a :
  user_edit rendered inputs → a ∈ rendered →
  ∃ b, b ∈ inputs ∧ data_cat b = data_cat a ∧ disabled b = disabled a
       ∧ (disabled a = true → checked b = checked a).
Proof.
  induction 1 as [|a' b r i Hab _ IH]; intros Ha.
  - by apply elem_of_nil in Ha.
  - apply elem_of_cons in Ha as [->|Ha].
    + exists b. split; [apply list_elem_of_here|done].
    + destruct (IH Ha) as (b' & Hb' & Hrest). exists b'.
      split; [by apply list_elem_of_further|done].
Qed.

Lemma cc_save_prefs_eq inputs w :
  cc_save_prefs inputs w
  = Obj.assign (defaultPrefs w)
               ((fun inp => (data_cat inp, checked inp)) <$> inputs).
Proof.
  unfold cc_save_prefs, Obj.assign, Obj.entries.
  by rewrite foldl_fmap.
Qed.

Lemma cc_save_prefs_get inputs w inp :
  Obj.wf (CATEGORIES w) →
  user_edit (openModal_inputs w) inputs →
  inp ∈ inputs →
  Obj.get (cc_save_prefs inputs w) (data_cat inp) = Some (checked inp).
Proof.
  intros Hwf Hedit Hin. rewrite cc_save_prefs_eq.
  unfold Obj.assign, Obj.entries. rewrite get_foldl_set.
  - rewrite (get_elem_wf _ (data_cat inp) (checked inp)); [done| |].
    + unfold Obj.wf, Obj.keys. rewrite <- list_fmap_compose.
      change (fst ∘ _) with data_cat.
      by rewrite (user_edit_cats _ _ Hedit), openModal_inputs_cats.
    + by apply (list_elem_of_fmap_2
                  (fun inp => (data_cat inp, checked inp))).
  - unfold Obj.wf, Obj.keys. rewrite <- list_fmap_compose.
    change (fst ∘ _) with data_cat.
    by rewrite (user_edit_cats _ _ Hedit), openModal_inputs_cats.
Qed.

(** X13: saving the modal installs a record with exactly the keys of the
    registry, each with the state of its checkbox; keys that the current
    record has beyond the registry are dropped.  Saved untouched, the
    modal keeps every registered choice of the current record (of the
    defaults, when there is none) and turns required categories on. *)
Theorem cc_save_records_checkboxes v inputs w :
  Obj.wf (CATEGORIES w) →
  user_edit (openModal_inputs w) inputs →
  let p := cc_save_prefs inputs w in
  consent (cc_save_onclick v inputs w) = Some p
  ∧ Obj.keys p = Obj.keys (CATEGORIES w)
  ∧ (∀ inp, inp ∈ inputs → Obj.get p (data_cat inp) = Some (checked inp))
  ∧ (∀ k d, Obj.get (CATEGORIES w) k = Some d →
            Obj.get (cc_save_prefs (openModal_inputs w) w) k
            = Some (required d
                    || truthy (Obj.get (match consent w with
                                        | Some c => c
                                        | None => defaultPrefs w
                                        end) k))).
Proof.
  intros Hwf Hedit. cbv zeta.
  pose proof (user_edit_refl (openModal_inputs w)) as Hself.
  split; [apply applyConsent_consent|]. split; [|split].
  - rewrite cc_save_prefs_eq. unfold Obj.assign, Obj.entries.
    rewrite keys_foldl_set_present; [by apply defaultPrefs_keys|].
    intros k. unfold Obj.keys at 1. rewrite <- list_fmap_compose.
    change (fst ∘ _) with data_cat.
    rewrite (user_edit_cats _ _ Hedit), openModal_inputs_cats.
    by rewrite defaultPrefs_keys.
  - intros inp Hin. by apply cc_save_prefs_get.
  - intros k d Hk.
    set (current := match consent w with
                    | Some c => c
                    | None => defaultPrefs w
                    end).
    pose (inp := {| data_cat := k;
                    checked := required d || truthy (Obj.get current k);
                    disabled := required d |}).
    apply (cc_save_prefs_get (openModal_inputs w) w inp Hwf Hself).
    unfold openModal_inputs. fold current.
    apply ObjFacts.get_Some_elem in Hk.
    by apply (list_elem_of_fmap_2
                (fun kv => {| data_cat := kv.1;
                              checked := required kv.2
                                         || truthy (Obj.get current kv.1);
                              disabled := required kv.2 |}) _ (k, d)).
Qed.

(** X14: whatever the visitor does to the checkboxes that are not
    disabled, the record that the modal saves has every required
    category [true], and [hasConsent] holds for it afterwards. *)
Theorem cc_save_keeps_required v inputs w k d :
  Obj.wf (CATEGORIES w) →
  user_edit (openModal_inputs w) inputs →
  Obj.get (CATEGORIES w) k = Some d → required d = true →
  Obj.get (cc_save_prefs inputs w) k = Some true
  ∧ hasConsent k (cc_save_onclick v inputs w) = true.
Proof.
  intros Hwf Hedit Hk Hr.
  assert (Hget : Obj.get (cc_save_prefs inputs w) k = Some true).
  { set (current := match consent w with
                    | Some c => c
                    | None => defaultPrefs w
                    end).
    pose (a := {| data_cat := k;
                  checked := required d || truthy (Obj.get current k);
                  disabled := required d |}).
    assert (Ha : a ∈ openModal_inputs w).
    { unfold openModal_inputs. fold current.
      apply ObjFacts.get_Some_elem in Hk.
      by apply (list_elem_of_fmap_2
                  (fun kv => {| data_cat := kv.1;
                                checked := required kv.2
                                           || truthy (Obj.get current kv.1);
                                disabled := required kv.2 |}) _ (k, d)). }
    destruct (user_edit_elem _ _ a Hedit Ha) as (b & Hb & Hc & _ & Hch).
    pose proof (cc_save_prefs_get inputs w b Hwf Hedit Hb) as Hgb.
    rewrite Hc, Hch in Hgb; simpl in *; by rewrite ?Hr in *. }
  split; [done|]. unfold hasConsent, cc_save_onclick.
  by rewrite applyConsent_consent, Hget.
Qed.

(** ** Reset and reload; order of activation *)

(** X18: [reset()] followed by the reload it asks for is a first visit
    again: the reloaded page has no record, consents to nothing, asks
    for the banner and activates the [necessary] declarations alone. *)
Theorem reset_then_reload_is_first_visit v w html still_loading :
  0 < clock w → jar_own STORAGE_KEY (jar w) →
  let w' := page_load v html still_loading (reset w) in
  consent w' = None
  ∧ (∀ c, hasConsent c w' = false)
  ∧ banner w' = (if still_loading then BannerDeferred else BannerShown)
  ∧ activated w'
    = map live_script
          (filter (fun el => matches_selector "necessary" el = true) html)
  ∧ (∀ c, c ≠ "necessary" →
          pending c w'
          = filter (fun el => matches_selector c el = true) html).
Proof.
  intros Hclock Hown. cbv zeta.
  pose proof (load_after_reset v w Hclock Hown) as Hload.
  rewrite page_load_eq, init_configure, load_fresh_page, Hload.
  cbv zeta. unfold configure. simpl.
  split; [by rewrite activateScripts_eq|].
  split; [intros c; unfold hasConsent; by rewrite activateScripts_eq|].
  split; [by rewrite activateScripts_eq|].
  split; [by rewrite activateScripts_eq|].
  intros c Hc.
  transitivity (pending c (activateScripts "necessary"
                             (fresh_page html still_loading (reset w))));
    [done|].
  by rewrite pending_activateScripts_other.
Qed.

Lemma activate_if_comm c1 c2 el :
  activate_if c1 (activate_if c2 el) = activate_if c2 (activate_if c1 el).
Proof.
  unfold activate_if.
  destruct (matches_selector c2 el) eqn:H2,
           (matches_selector c1 el) eqn:H1;
    rewrite ?live_script_not_inert, ?H1, ?H2; done.
Qed.

(** X19: the order in which two categories are activated does not
    matter to the document: both orders leave the same elements at the
    same places, and insert the same live scripts, in another order at
    most. *)
Theorem activateScripts_order c1 c2 w :
  dom (activateScripts c1 (activateScripts c2 w))
  = dom (activateScripts c2 (activateScripts c1 w))
  ∧ activated (activateScripts c1 (activateScripts c2 w))
    ≡ₚ activated (activateScripts c2 (activateScripts c1 w))
  ∧ length (dom (activateScripts c1 w)) = length (dom w).
Proof.
  split; [|split].
  - rewrite !activateScripts_eq. simpl. rewrite <- !list_fmap_compose.
    apply list_fmap_ext. intros i el _. apply activate_if_comm.
  - destruct (decide (c1 = c2)) as [->|Hne]; [done|].
    rewrite (activateScripts_eq c1 (activateScripts c2 w)).
    rewrite (activateScripts_eq c2 (activateScripts c1 w)). simpl.
    rewrite pending_activateScripts_other by done.
    rewrite pending_activateScripts_other by done.
    rewrite !activateScripts_eq. simpl. rewrite <- !app_assoc.
    f_equiv. apply Permutation_app_comm.
  - rewrite activateScripts_eq. simpl. apply length_map.
Qed.

(** ** The further properties on the example sessions *)


(** Allowing [necessary] alone on the example page. *)
Lemma applyConsent_activates_only_true_keys_witness :
  let p := [("necessary", true); ("analytics", false)] in
  Obj.wf p
  ∧ pending "analytics" (applyConsent "2" p first_visit) = [script_analytics]
  ∧ pending "social" (applyConsent "2" p first_visit) = [script_social].
Proof.
  cbv zeta.
  assert (Hwf : Obj.wf [("necessary", true); ("analytics", false)])
    by (unfold Obj.wf; compute_done).
  destruct (applyConsent_activates_only_true_keys "2" _ first_visit Hwf)
    as [H _].
  split; [exact Hwf|].
  split; [apply (H "analytics")|apply (H "social")]; discriminate.
Defined.

(** A first decision on working stores. *)
Lemma applyConsent_persists_and_notifies_witness :
  let p := [("necessary", true); ("analytics", true)] in
  events (applyConsent "2" p first_visit) = [p]
  ∧ load "2" (applyConsent "2" p first_visit) = Some p.
Proof.
  cbv zeta.
  destruct (applyConsent_persists_and_notifies "2"
              [("necessary", true); ("analytics", true)] first_visit)
    as (_ & H1 & H2).
  destruct (H2 eq_refl eq_refl) as [_ H3].
  split; [exact H1|exact H3].
Defined.

(** Declining analytics as a first decision deletes no cookie. *)
Lemma applyConsent_without_revocation_witness :
  let p := [("necessary", true); ("analytics", false)] in
  consent first_visit = None
  ∧ cookie_log (applyConsent "2" p first_visit) = [].
Proof.
  cbv zeta.
  destruct (applyConsent_without_revocation "2"
              [("necessary", true); ("analytics", false)] first_visit)
    as (_ & _ & H).
  { intros old k Hc. discriminate Hc. }
  destruct (H eq_refl eq_refl) as [_ H1].
  split; [reflexivity|exact H1].
Defined.

(** The purge of [marketing] on a jar with [_fbp] in three scopes. *)
Lemma deleteCookies_jar_witness :
  0 < clock tracked
  ∧ jar (deleteCookies "marketing" tracked)
    = [ {| c_name := "_fbp"; c_value := Plain "fb.3"; c_domain := None;
           c_path := "/shop" |};
        {| c_name := "session"; c_value := Plain "s1"; c_domain := None;
           c_path := "/" |} ]
  ∧ {| c_name := "_fbp"; c_value := Plain "fb.3"; c_domain := None;
       c_path := "/shop" |} ∈ jar (deleteCookies "marketing" tracked).
Proof.
  assert (H0 : 0 < clock tracked) by (vm_compute; reflexivity).
  destruct (deleteCookies_jar "marketing" tracked H0) as (_ & _ & H).
  split; [exact H0|]. split; [vm_compute; reflexivity|].
  apply H.
  - vm_compute. do 2 apply list_elem_of_further. apply list_elem_of_here.
  - right. left. discriminate.
Defined.

(** [init] with options on a stored record. *)
Lemma init_merges_configuration_witness :
  Obj.keys (CATEGORIES (init "2" social_options returning_visit))
  = ["necessary"; "analytics"; "marketing"; "preferences"; "social"]
  ∧ default <$> Obj.get (CATEGORIES (init "2" social_options returning_visit))
                        "analytics" = Some true
  ∧ COOKIE_MAP (init "2" social_options returning_visit) !! "social"
    = Some ["sid"]
  ∧ COOKIE_MAP (init "2" social_options returning_visit) !! "marketing"
    = Some ["_fbp"; "_fbc"; "fr"; "tr"; "__gads"].
Proof.
  destruct (init_merges_configuration "2" social_options returning_visit)
    as (H1 & _ & H2 & _).
  destruct (H1 _ eq_refl) as (_ & _ & H3 & H4).
  assert (Hwf : Obj.wf [ ("social",
               {| label := "Social"; description := "Share buttons.";
                  required := false; default := false |});
              ("analytics",
               {| label := "Statistics"; description := "Visit counts.";
                  required := false; default := true |}) ])
    by (unfold Obj.wf; compute_done).
  split; [rewrite (H3 Hwf); vm_compute; reflexivity|].
  split; [rewrite (H4 Hwf); reflexivity|].
  split; rewrite (H2 _ eq_refl); reflexivity.
Defined.


(** [acceptAll] on a first visit. *)
Lemma acceptAll_allows_registry_witness :
  Obj.wf (CATEGORIES first_visit)
  ∧ hasConsent "marketing" (acceptAll "2" first_visit) = true
  ∧ pending "analytics" (acceptAll "2" first_visit) = []
  ∧ pending "social" (acceptAll "2" first_visit) = [script_social].
Proof.
  assert (Hwf : Obj.wf (CATEGORIES first_visit))
    by (unfold Obj.wf; compute_done).
  destruct (acceptAll_allows_registry "2" first_visit Hwf)
    as (_ & H1 & H2 & _).
  assert (Hin : "marketing" ∈ Obj.keys (CATEGORIES first_visit))
    by compute_done.
  assert (Hin' : "analytics" ∈ Obj.keys (CATEGORIES first_visit))
    by compute_done.
  assert (Hnin : "social" ∉ Obj.keys (CATEGORIES first_visit))
    by compute_done.
  split; [exact Hwf|]. split; [exact (proj1 (H1 _ Hin))|].
  split; [exact (proj2 (H1 _ Hin'))|exact (H2 _ Hnin)].
Defined.

(** [rejectAll] after [acceptAll]. *)
Lemma rejectAll_keeps_defaults_witness :
  Obj.wf (CATEGORIES decided)
  ∧ hasConsent "necessary" (rejectAll "2" decided) = true
  ∧ hasConsent "marketing" (rejectAll "2" decided) = false.
Proof.
  assert (Hwf : Obj.wf (CATEGORIES decided))
    by (unfold Obj.wf; compute_done).
  destruct (rejectAll_keeps_defaults "2" decided Hwf) as (_ & _ & H).
  split; [exact Hwf|].
  split; [exact (H "necessary" _ eq_refl)|exact (H "marketing" _ eq_refl)].
Defined.


(** The session after a version bump. *)
Lemma version_bump_asks_again_witness :
  let p := [("necessary", true); ("analytics", true)] in
  let w' := page_load "3" (dom first_visit) false
              (applyConsent "2" p first_visit) in
  load_fallback "3" (applyConsent "2" p first_visit) = None
  ∧ consent w' = None
  ∧ banner w' = BannerShown
  ∧ activated w' = [live_script script_necessary].
Proof.
  cbv zeta.
  assert (H0 : load_fallback "3"
                 (applyConsent "2" [("necessary", true); ("analytics", true)]
                    first_visit) = None) by reflexivity.
  assert (Hne : "3" ≠ "2") by discriminate.
  destruct (version_bump_asks_again "2" "3" _ first_visit
              (dom first_visit) false Hne eq_refl eq_refl H0)
    as (H1 & _ & H2 & H3 & _).
  split; [exact H0|]. split; [exact H1|]. split; [exact H2|exact H3].
Defined.

(** Saving the modal after unchecking [marketing]. *)
Lemma cc_save_records_checkboxes_witness :
  Obj.wf (CATEGORIES decided)
  ∧ user_edit (openModal_inputs decided) modal_unchecked_marketing
  ∧ consent (cc_save_onclick "2" modal_unchecked_marketing decided)
    = Some [("necessary", true); ("analytics", true); ("marketing", false);
            ("preferences", true)].
Proof.
  assert (Hwf : Obj.wf (CATEGORIES decided))
    by (unfold Obj.wf; compute_done).
  assert (Hedit : user_edit (openModal_inputs decided)
                            modal_unchecked_marketing).
  { unfold user_edit. vm_compute.
    repeat (constructor; [repeat split; intros; done|]). constructor. }
  destruct (cc_save_records_checkboxes "2" modal_unchecked_marketing decided
              Hwf Hedit) as (H1 & _).
  split; [exact Hwf|]. split; [exact Hedit|].
  rewrite H1. vm_compute. reflexivity.
Defined.

(** The required category in the saved modal. *)
Lemma cc_save_keeps_required_witness :
  Obj.wf (CATEGORIES decided)
  ∧ user_edit (openModal_inputs decided) modal_unchecked_marketing
  ∧ hasConsent "necessary"
      (cc_save_onclick "2" modal_unchecked_marketing decided) = true.
Proof.
  assert (Hwf : Obj.wf (CATEGORIES decided))
    by (unfold Obj.wf; compute_done).
  assert (Hedit : user_edit (openModal_inputs decided)
                            modal_unchecked_marketing).
  { unfold user_edit. vm_compute.
    repeat (constructor; [repeat split; intros; done|]). constructor. }
  destruct (cc_save_keeps_required "2" modal_unchecked_marketing decided
              "necessary"
              {| label := "Necessary";
                 description :=
                   "Required for the website to function. Cannot be disabled.";
                 required := true; default := true |}
              Hwf Hedit eq_refl eq_refl) as [_ H].
  split; [exact Hwf|]. split; [exact Hedit|exact H].
Defined.

(** [init] twice on a first visit. *)
Lemma init_first_visit_prompt_witness :
  load "2" first_visit = None
  ∧ banner (init "2" no_options first_visit) = BannerShown
  ∧ activated (init "2" social_options (init "2" no_options first_visit))
    = [live_script script_necessary].
Proof.
  assert (H0 : load "2" first_visit = None) by reflexivity.
  destruct (init_first_visit_prompt "2" no_options social_options
              first_visit H0) as (H1 & _ & _ & _ & _ & _ & H2).
  split; [exact H0|]. split; [exact H1|]. rewrite H2. reflexivity.
Defined.

(** [load] on stores that hold payloads of two versions. *)
Lemma load_returns_compiled_version_witness :
  load "2" two_versions = Some [("necessary", true); ("marketing", true)]
  ∧ ∃ d, version d = "2"
         ∧ prefs d = [("necessary", true); ("marketing", true)].
Proof.
  assert (H0 : load "2" two_versions
               = Some [("necessary", true); ("marketing", true)])
    by reflexivity.
  destruct (load_returns_compiled_version "2" two_versions _ H0)
    as (d & H1 & H2 & _).
  split; [exact H0|]. exists d. split; [exact H1|exact H2].
Defined.

(** Two saves, into the primary store and into the cookie. *)
Lemma load_after_two_saves_witness :
  let p1 := [("necessary", true); ("analytics", true)] in
  let p2 := [("necessary", true); ("analytics", false)] in
  load "2" (save "2" p2 (save "2" p1 first_visit)) = Some p2
  ∧ jar_own STORAGE_KEY (jar no_storage)
  ∧ load "2" (save "2" p2 (save "2" p1 no_storage)) = Some p2.
Proof.
  cbv zeta.
  destruct (load_after_two_saves "2"
              [("necessary", true); ("analytics", true)]
              [("necessary", true); ("analytics", false)] first_visit)
    as [H1 _].
  destruct (load_after_two_saves "2"
              [("necessary", true); ("analytics", true)]
              [("necessary", true); ("analytics", false)] no_storage)
    as [_ H2].
  assert (Hown : jar_own STORAGE_KEY (jar no_storage)).
  { intros c Hc. vm_compute in Hc. by apply elem_of_nil in Hc. }
  split; [exact (H1 eq_refl eq_refl)|]. split; [exact Hown|].
  exact (H2 eq_refl eq_refl Hown).
Defined.

(** [reset] and the reload after a decision. *)
Lemma reset_then_reload_is_first_visit_witness :
  let w' := page_load "2" (dom first_visit) false (reset decided) in
  0 < clock decided
  ∧ jar_own STORAGE_KEY (jar decided)
  ∧ hasConsent "analytics" decided = true
  ∧ hasConsent "analytics" w' = false
  ∧ banner w' = BannerShown
  ∧ activated w' = [live_script script_necessary].
Proof.
  cbv zeta.
  assert (H0 : 0 < clock decided) by (vm_compute; reflexivity).
  assert (Hown : jar_own STORAGE_KEY (jar decided)).
  { intros c Hc. vm_compute in Hc. by apply elem_of_nil in Hc. }
  destruct (reset_then_reload_is_first_visit "2" decided
              (dom first_visit) false H0 Hown) as (_ & H1 & H2 & H3 & _).
  split; [exact H0|]. split; [exact Hown|]. split; [reflexivity|].
  split; [exact (H1 "analytics")|]. split; [exact H2|exact H3].
Defined.

